(** * Drainage-basin delineation: [find_basin_adaptado] and its helpers

    A shallow embedding of [criticidade_de_outorga.py]:
    [gen_polygons_from_shape], [is_within_bounds], [is_within_shape],
    [find_basin_adaptado] and [save_polygons], followed by the properties
    of the containment test, the seed search, the basin-code matcher, the
    area sum, the progress reports, the returned tuple, the polygon
    assembler and the saved records.

    What the script imports is kept abstract: Python floats with their
    order and addition, the builtins [int] and [float] on strings, and
    shapely's [point.within(poly)].  The geometry that is only built and
    handed back ([Polygon], [buffer(0)], [cascaded_union]) is kept
    symbolic, and these calls are taken to return.

    Conventions:
    - Python integers are [Z], [//] by a positive count is [Z.div];
    - strings are [string]; indices and lengths count characters, which
      agrees with Python on ASCII codes;
    - an attribute value is a string, a number or [None], and an operation
      on a value of the wrong kind raises as Python does;
    - a shapefile reader is the list of its field names and the list of its
      records; both [with] blocks of a call read the same records and
      [len(shp)] is their number;
    - the progress callback returns; the values it is called with are
      logged in order. *)

From Stdlib Require Import List String Ascii ZArith Bool Lia Sorted QArith.
Import ListNotations.
Local Open Scope string_scope.
Local Open Scope Z_scope.
Local Open Scope list_scope.

(** ** Exceptions *)

(** The exceptions the function can leave through. *)
Inductive exn : Type :=
| AttributeError
| TypeError
| ValueError
| IndexError
| OverflowError.

(** A Python expression either yields a value or raises. *)
Inductive outcome (A : Type) : Type :=
| Return (a : A)
| Raise (e : exn).
Arguments Return {A} a.
Arguments Raise {A} e.

Definition bind {A B : Type} (m : outcome A) (k : A -> outcome B) : outcome B :=
  match m with
  | Return a => k a
  | Raise e => Raise e
  end.

Notation "x <- m ;; k" := (bind m (fun x => k))
  (at level 61, m at next level, right associativity).

(** [try: body  except e: handler]. *)
Definition try_except {A : Type} (body : outcome A) (e : exn) (handler : outcome A)
  : outcome A :=
  match body with
  | Return a => Return a
  | Raise e' =>
      match e, e' with
      | AttributeError, AttributeError => handler
      | TypeError, TypeError => handler
      | ValueError, ValueError => handler
      | IndexError, IndexError => handler
      | OverflowError, OverflowError => handler
      | _, _ => Raise e'
      end
  end.

(** ** What the script imports *)

(** Python's [float] type and the builtins used on attribute values.
    [py_int s] and [py_float s] are [int(s)] and [float(s)] on a string,
    [None] standing for their [ValueError]; [py_int_num v] is [int(v)] on a
    number. *)
Class Builtins : Type := {
  float : Type;
  float_zero : float;                      (* 0.0 *)
  float_add : float -> float -> float;     (* + *)
  float_le : float -> float -> bool;       (* <= *)
  py_float : string -> option float;
  py_int : string -> option Z;
  py_int_num : float -> outcome Z
}.

(** ** Strings *)

(** [s.replace(',', '.')] *)
Fixpoint replace_comma (s : string) : string :=
  match s with
  | EmptyString => EmptyString
  | String c s' =>
      String (if Ascii.eqb c "," then "."%char else c) (replace_comma s')
  end.

Fixpoint repeat_char (c : ascii) (n : nat) : string :=
  match n with
  | O => EmptyString
  | S n' => String c (repeat_char c n')
  end.

(** [s.ljust(width, fill)] *)
Definition ljust (s : string) (width : nat) (fill : ascii) : string :=
  (s ++ repeat_char fill (width - String.length s))%string.

(** [s[:n]] *)
Definition slice_to (n : nat) (s : string) : string := substring 0 n s.

(** [r.startswith(p)] *)
Definition startswith (r p : string) : bool := prefix p r.

(** [xs.index(x)] on a list of strings; [None] is the [ValueError]. *)
Fixpoint index (xs : list string) (x : string) : option nat :=
  match xs with
  | [] => None
  | y :: ys => if String.eqb y x then Some O else option_map S (index ys x)
  end.

Section Basin.

Context {B : Builtins}.

(** ** Data *)

(** An attribute value of a record: a string, a number or [None]. *)
Inductive value : Type :=
| VStr (s : string)
| VNum (v : float)
| VNone.

Definition coords : Type := (float * float)%type.

(** [Polygon(points)]: the ring of coordinates it was built from. *)
Definition polygon : Type := list coords.

(** [sf.Shape]: bounding box [x1, y1, x2, y2], flat point list and the
    offsets at which the parts start. *)
Record shape : Type := {
  bbox : float * float * float * float;
  points : list coords;
  parts : list nat
}.

(** [sf.ShapeRecord] *)
Record shape_record : Type := {
  sr_shape : shape;
  sr_record : list value
}.

(** [sf.Reader]: the field names after the deletion flag and the records
    in iteration order; [len(shp)] is the number of records. *)
Record reader : Type := {
  fields : list string;
  records : list shape_record
}.

(** shapely's [point.within(poly)]. *)
Variable within : coords -> polygon -> bool.

(** ** Polygon assembler and containment test *)

(** [xs[a:b]] for offsets [a], [b] that are not negative. *)
Definition slice {A : Type} (a b : nat) (xs : list A) : list A :=
  firstn (b - a) (skipn a xs).

Definition gen_polygons_from_shape (sh : shape) : list polygon :=
  let offset_parts := tl (parts sh) ++ [List.length (points sh)] in
  map (fun '(part_start, part_end) => slice part_start part_end (points sh))
      (combine (parts sh) offset_parts).

Definition is_within_bounds (point : coords) (bounding_box : float * float * float * float)
  : bool :=
  let '(x1, y1, x2, y2) := bounding_box in
  (float_le x1 (fst point) && float_le (fst point) x2)
  && (float_le y1 (snd point) && float_le (snd point) y2).

(** The loop over the parts: the answer and the polygons [point.within] was
    called on, in order. *)
Fixpoint any_within (point : coords) (polys : list polygon) : bool * list polygon :=
  match polys with
  | [] => (false, [])
  | poly :: rest =>
      if within point poly then (true, [poly])
      else let '(b, tested) := any_within point rest in (b, poly :: tested)
  end.

(** [is_within_shape], with the exact tests it performed. *)
Definition is_within_shape_tests (point : coords) (sh : shape) : bool * list polygon :=
  if negb (is_within_bounds point (bbox sh)) then (false, [])
  else any_within point (gen_polygons_from_shape sh).

Definition is_within_shape (point : coords) (sh : shape) : bool :=
  fst (is_within_shape_tests point sh).

(** ** Progress reports *)

(** [current_progress] and the values the progress callback has been called
    with so far, oldest first.  When the caller passes no callback the
    function calls [lambda i: None] with the same values. *)
Record progress_state : Type := {
  current_progress : Z;
  reported : list Z
}.

Definition progress_callback (v : Z) (st : progress_state) : progress_state :=
  {| current_progress := current_progress st;
     reported := reported st ++ [v] |}.

(** [if current_progress < progress: current_progress += 1;
    progress_callback(current_progress)] *)
Definition report (progress : Z) (st : progress_state) : progress_state :=
  if current_progress st <? progress then
    progress_callback (current_progress st + 1)
      {| current_progress := current_progress st + 1;
         reported := reported st |}
  else st.

(** ** First pass: the record that contains the point *)

(** The first [for] loop from index [i] on, over the records still to come.
    [feature_count] is [len(shp)], which is positive whenever the body runs
    in a call; [None] is the loop's [else] branch. *)
Fixpoint find_seed (feature_count : Z) (point : coords) (i : Z)
    (rs : list shape_record) (st : progress_state)
  : progress_state * option shape_record :=
  match rs with
  | [] => (st, None)
  | sr :: rest =>
      if is_within_shape point (sr_shape sr) then (st, Some sr)
      else
        let progress := ((i + 1) * 50) / feature_count in
        find_seed feature_count point (i + 1) rest (report progress st)
  end.

(** ** What is kept of the seed *)

Record seed : Type := {
  reach_index : nat;
  basin_index : nat;
  area_index : option nat;          (* bound only when area_field != None *)
  selected_reach : value;
  selected_basin_int : Z;
  selected_basin_length : nat
}.

(** [fields.index(name)] *)
Definition field_index (fs : list string) (name : string) : outcome nat :=
  match index fs name with
  | Some k => Return k
  | None => Raise ValueError
  end.

(** [record[k]] *)
Definition item (record : list value) (k : nat) : outcome value :=
  match nth_error record k with
  | Some v => Return v
  | None => Raise IndexError
  end.

(** [int(s)] on a string *)
Definition int_str (s : string) : outcome Z :=
  match py_int s with
  | Some z => Return z
  | None => Raise ValueError
  end.

(** [int(v)] *)
Definition int_value (v : value) : outcome Z :=
  match v with
  | VStr s => int_str s
  | VNum x => py_int_num x
  | VNone => Raise TypeError
  end.

(** [len(v)] *)
Definition len_value (v : value) : outcome nat :=
  match v with
  | VStr s => Return (String.length s)
  | VNum _ | VNone => Raise TypeError
  end.

Definition read_seed (fs : list string) (reach_field basin_field : string)
    (area_field : option string) (sr : shape_record) : outcome seed :=
  reach_index <- field_index fs reach_field ;;
  basin_index <- field_index fs basin_field ;;
  area_index <-
    match area_field with
    | Some name =>
        area_index <- field_index fs name ;;
        selected_area <- item (sr_record sr) area_index ;;
        Return (Some area_index)
    | None => Return None
    end ;;
  selected_reach <- item (sr_record sr) reach_index ;;
  selected_basin <- item (sr_record sr) basin_index ;;
  selected_basin_int <- int_value selected_basin ;;
  selected_basin_length <- len_value selected_basin ;;
  Return {| reach_index := reach_index;
            basin_index := basin_index;
            area_index := area_index;
            selected_reach := selected_reach;
            selected_basin_int := selected_basin_int;
            selected_basin_length := selected_basin_length |}.

(** ** The matcher *)

(** [reach.startswith(selected_reach)] *)
Definition startswith_value (reach selected : value) : outcome bool :=
  match reach with
  | VStr r =>
      match selected with
      | VStr p => Return (startswith r p)
      | VNum _ | VNone => Raise TypeError
      end
  | VNum _ | VNone => Raise AttributeError
  end.

(** [code[:length].ljust(length, '0')] on a string *)
Definition normalize (length : nat) (code : string) : string :=
  ljust (slice_to length code) length "0".

Definition normalize_value (length : nat) (code : value) : outcome string :=
  match code with
  | VStr b => Return (normalize length b)
  | VNum _ | VNone => Raise TypeError
  end.

(** The two tests of the second loop on one record. *)
Definition matches (sd : seed) (sr : shape_record) : outcome bool :=
  reach <- item (sr_record sr) (reach_index sd) ;;
  same_reach <- startswith_value reach (selected_reach sd) ;;
  if same_reach : bool then
    code <- item (sr_record sr) (basin_index sd) ;;
    basin <- normalize_value (selected_basin_length sd) code ;;
    basin_int <- int_str basin ;;
    Return (selected_basin_int sd <=? basin_int)
  else Return false.

(** ** The aggregator *)

(** [value.replace(',', '.')] *)
Definition replace_value (v : value) : outcome string :=
  match v with
  | VStr s => Return (replace_comma s)
  | VNum _ | VNone => Raise AttributeError
  end.

(** [float(s)] on a string *)
Definition float_str (s : string) : outcome float :=
  match py_float s with
  | Some f => Return f
  | None => Raise ValueError
  end.

(** [area + v] *)
Definition add_value (area : float) (v : value) : outcome float :=
  match v with
  | VNum x => Return (float_add area x)
  | VStr _ | VNone => Raise TypeError
  end.

(** The [try]/[except AttributeError] statement that updates [area]. *)
Definition add_area (k : nat) (record : list value) (area : float) : outcome float :=
  try_except
    (v <- item record k ;;
     s <- replace_value v ;;
     f <- float_str s ;;
     Return (float_add area f))
    AttributeError
    (v <- item record k ;;
     add_value area v).

(** [basin_polygons] holds [poly.buffer(0)] for each [poly] listed. *)
Record basin_acc : Type := {
  basin_polygons : list polygon;
  area : float
}.

(** The loop over the parts of a matched record. *)
Fixpoint add_parts (sd : seed) (sr : shape_record) (polys : list polygon)
    (acc : basin_acc) : outcome basin_acc :=
  match polys with
  | [] => Return acc
  | poly :: rest =>
      let basin_polygons' := basin_polygons acc ++ [poly] in
      area' <-
        match area_index sd with
        | Some k => add_area k (sr_record sr) (area acc)
        | None => Return (area acc)
        end ;;
      add_parts sd sr rest {| basin_polygons := basin_polygons'; area := area' |}
  end.

(** The body of the second loop up to the progress report. *)
Definition visit (sd : seed) (sr : shape_record) (acc : basin_acc) : outcome basin_acc :=
  m <- matches sd sr ;;
  if m : bool then add_parts sd sr (gen_polygons_from_shape (sr_shape sr)) acc
  else Return acc.

(** The second [for] loop from index [i] on. *)
Fixpoint aggregate (feature_count : Z) (sd : seed) (i : Z)
    (rs : list shape_record) (acc : basin_acc) (st : progress_state)
  : progress_state * outcome basin_acc :=
  match rs with
  | [] => (st, Return acc)
  | sr :: rest =>
      match visit sd sr acc with
      | Raise e => (st, Raise e)
      | Return acc' =>
          let progress := 50 + ((i + 1) * 50) / feature_count in
          aggregate feature_count sd (i + 1) rest acc' (report progress st)
      end
  end.

(** ** The delineation *)

(** What the function returns.  A basin is [cascaded_union(basin_polygons)],
    kept as the list it was called on. *)
Inductive result : Type :=
| RNone                                                   (* None *)
| RNonePair                                               (* None, None *)
| RBasin (basin : list polygon)
| RBasinArea (basin : list polygon) (a : float)
| RBasinAreaReach (basin : list polygon) (a : float) (reach : value).

Definition pack (area_field : option string) (return_reach : bool)
    (sd : seed) (acc : basin_acc) : result :=
  match area_field, return_reach with
  | Some _, true => RBasinAreaReach (basin_polygons acc) (area acc) (selected_reach sd)
  | Some _, false => RBasinArea (basin_polygons acc) (area acc)
  | None, _ => RBasin (basin_polygons acc)
  end.

Definition initial_state : progress_state :=
  {| current_progress := 0; reported := [] |}.

Definition initial_acc : basin_acc :=
  {| basin_polygons := []; area := float_zero |}.

(** The final progress state comes with the outcome, also when the call
    raises. *)
Definition find_basin_adaptado (shp : reader) (reach_field basin_field : string)
    (x y : float) (area_field : option string) (return_reach : bool)
  : progress_state * outcome result :=
  let point := (x, y) in
  let feature_count := Z.of_nat (List.length (records shp)) in
  match find_seed feature_count point 0 (records shp) initial_state with
  | (st, None) =>
      (progress_callback 100 st,
       Return (match area_field with Some _ => RNonePair | None => RNone end))
  | (st, Some sr) =>
      match read_seed (fields shp) reach_field basin_field area_field sr with
      | Raise e => (st, Raise e)
      | Return sd =>
          let '(st', r) := aggregate feature_count sd 0 (records shp) initial_acc st in
          (st', acc <- r ;; Return (pack area_field return_reach sd acc))
      end
  end.

(** ** Vocabulary of the statements *)

(** The reports so far increase strictly and none exceeds
    [current_progress]. *)
Definition well_reported (st : progress_state) : Prop :=
  StronglySorted Z.lt (reported st)
  /\ Forall (fun v => v <= current_progress st) (reported st).

(** The attribute of a record under a field name. *)
Definition attribute (fs : list string) (name : string) (sr : shape_record)
  : outcome value :=
  k <- field_index fs name ;;
  item (sr_record sr) k.

(** Two records with the same shape whose attributes agree in every column
    but [k]. *)
Definition same_but (k : nat) (sr1 sr2 : shape_record) : Prop :=
  sr_shape sr1 = sr_shape sr2
  /\ forall j, j <> k -> nth_error (sr_record sr1) j = nth_error (sr_record sr2) j.

(** The test of the first loop. *)
Definition contains (point : coords) (sr : shape_record) : bool :=
  is_within_shape point (sr_shape sr).

End Basin.

(** ** An instance to run the functions on *)

(** Exact rationals stand for floats, plain decimal literals for what [int]
    and [float] read, and the rings are axis-aligned rectangles, for which
    [point.within] is the strict test against the extent of the ring.  On
    the inputs below (small integers and halves, rectangles) floats and
    shapely compute the same values. *)
Module Run.

Definition digit_of (c : ascii) : option Z :=
  let n := nat_of_ascii c in
  if (48 <=? n)%nat && (n <=? 57)%nat then Some (Z.of_nat (n - 48)) else None.

Fixpoint digits (s : string) (seen : bool) (m : Z) : option Z :=
  match s with
  | EmptyString => if seen then Some m else None
  | String c s' =>
      match digit_of c with
      | Some d => digits s' true (10 * m + d)
      | None => None
      end
  end.

Definition signed {A : Type} (body : string -> option A) (neg : A -> A) (s : string)
  : option A :=
  match s with
  | String "-" s' => option_map neg (body s')
  | String "+" s' => body s'
  | _ => body s
  end.

Definition dec_int : string -> option Z :=
  signed (fun s => digits s false 0) Z.opp.

Fixpoint fraction (s : string) (seen : bool) (m : Z) (k : nat) : option Q :=
  match s with
  | EmptyString =>
      if seen then Some (Qred (Qmake m (Pos.pow 10 (Pos.of_nat k)))) else None
  | String c s' =>
      match digit_of c with
      | Some d => fraction s' true (10 * m + d) (S k)
      | None => None
      end
  end.

Fixpoint mantissa (s : string) (seen : bool) (m : Z) : option Q :=
  match s with
  | EmptyString => if seen then Some (Qmake m 1) else None
  | String c s' =>
      if Ascii.eqb c "." then
        match s' with
        | EmptyString => if seen then Some (Qmake m 1) else None
        | _ => fraction s' seen m 0
        end
      else
        match digit_of c with
        | Some d => mantissa s' true (10 * m + d)
        | None => None
        end
  end.

Definition dec_float : string -> option Q :=
  signed (fun s => mantissa s false 0) Qopp.

#[export] Instance rationals : Builtins := {|
  float := Q;
  float_zero := Qmake 0 1;
  float_add := fun a b => Qred (Qplus a b);
  float_le := Qle_bool;
  py_float := dec_float;
  py_int := dec_int;
  py_int_num := fun v => Return (Z.quot (Qnum v) (Zpos (Qden v)))
|}.

Definition qmin (a b : Q) : Q := if Qle_bool a b then a else b.
Definition qmax (a b : Q) : Q := if Qle_bool a b then b else a.

(** Strictly inside the rectangle whose corners the ring lists. *)
Definition within_rect (p : Q * Q) (ring : list (Q * Q)) : bool :=
  match ring with
  | [] => false
  | (x0, y0) :: _ =>
      let xs := map fst ring in
      let ys := map snd ring in
      let x1 := fold_left qmin xs x0 in
      let x2 := fold_left qmax xs x0 in
      let y1 := fold_left qmin ys y0 in
      let y2 := fold_left qmax ys y0 in
      negb (Qle_bool (fst p) x1) && negb (Qle_bool x2 (fst p))
      && negb (Qle_bool (snd p) y1) && negb (Qle_bool y2 (snd p))
  end.

(** The closed ring of the rectangle from [(x1, y1)] to [(x2, y2)]. *)
Definition ring (x1 y1 x2 y2 : Z) : list (Q * Q) :=
  [(inject_Z x1, inject_Z y1); (inject_Z x2, inject_Z y1);
   (inject_Z x2, inject_Z y2); (inject_Z x1, inject_Z y2);
   (inject_Z x1, inject_Z y1)].

(** A one-part shape: that rectangle. *)
Definition rect (x1 y1 x2 y2 : Z) : shape :=
  {| bbox := (inject_Z x1, inject_Z y1, inject_Z x2, inject_Z y2);
     points := ring x1 y1 x2 y2;
     parts := [0%nat] |}.

(** A two-part shape: the rectangles [x1..x2] and [x3..x4] over [y1..y2]. *)
Definition two_rects (x1 x2 x3 x4 y1 y2 : Z) : shape :=
  {| bbox := (inject_Z x1, inject_Z y1, inject_Z x4, inject_Z y2);
     points := ring x1 y1 x2 y2 ++ ring x3 y1 x4 y2;
     parts := [0%nat; 5%nat] |}.

Definition find_basin := find_basin_adaptado within_rect.

(** *** Catchment layers *)

Definition layer_fields : list string := ["cocursodag"; "cobacia"; "nuareacont"].

(** Three records in a row: two unit squares on reach ["10"] and a far one
    on reach ["99"]. *)
Definition R1 : shape_record :=
  {| sr_shape := rect 0 0 1 1;
     sr_record := [VStr "10"; VStr "100"; VStr "10,0"] |}.
Definition R2 : shape_record :=
  {| sr_shape := rect 1 0 2 1;
     sr_record := [VStr "10"; VStr "200"; VNum (5 # 1)] |}.
Definition R3 : shape_record :=
  {| sr_shape := rect 10 10 11 11;
     sr_record := [VStr "99"; VStr "050"; VStr "2,5"] |}.

Definition layer : reader :=
  {| fields := layer_fields; records := [R1; R2; R3] |}.

(** The same layer with other values in the area column. *)
Definition layer_other_areas : reader :=
  {| fields := layer_fields;
     records :=
       [ {| sr_shape := rect 0 0 1 1;
            sr_record := [VStr "10"; VStr "100"; VStr "n/a"] |};
         {| sr_shape := rect 1 0 2 1;
            sr_record := [VStr "10"; VStr "200"; VNone] |};
         {| sr_shape := rect 10 10 11 11;
            sr_record := [VStr "99"; VStr "050"; VNum (7 # 1)] |} ] |}.

(** A record upstream of [R1] whose area is not a number. *)
Definition R4 : shape_record :=
  {| sr_shape := rect 1 0 2 1;
     sr_record := [VStr "101"; VStr "300"; VStr "n/a"] |}.

Definition layer_bad_area : reader :=
  {| fields := layer_fields; records := [R1; R4] |}.

(** One record alone. *)
Definition layer_single : reader :=
  {| fields := layer_fields; records := [R1] |}.

(** One record of two parts with area ["5"]. *)
Definition M1 : shape_record :=
  {| sr_shape := two_rects 0 1 2 3 0 1;
     sr_record := [VStr "10"; VStr "100"; VStr "5"] |}.

Definition layer_two_parts : reader :=
  {| fields := layer_fields; records := [M1] |}.

(** What [read_seed] keeps of [R1]. *)
Definition seed_R1 : seed :=
  {| reach_index := 0; basin_index := 1; area_index := Some 2%nat;
     selected_reach := VStr "10"; selected_basin_int := 100;
     selected_basin_length := 3 |}.

Definition half : Q := 1 # 2.

End Run.

(** ** Saving polygons *)

(** What a [shapefile.Writer] has been told, in order. *)
Inductive writer_call {B : Builtins} : Type :=
| WField (name type : string)                 (* shp.field(name, type) *)
| WRecord (id : Z)                            (* shp.record(id) *)
| WPoly (rings : list (list coords)).         (* shp.poly(rings) *)

Section Save.

Context {B : Builtins}.

(** A shapely geometry and its [poly.exterior.coords], which raises
    [AttributeError] on a geometry that has no exterior. *)
Variable geometry : Type.
Variable exterior_coords : geometry -> outcome (list coords).

(** The [for] loop of [save_polygons] from index [i] on: the calls made on
    the writer so far and how the loop ends. *)
Fixpoint save_loop (i : Z) (polygons : list geometry) (written : list writer_call)
  : list writer_call * outcome unit :=
  match polygons with
  | [] => (written, Return tt)
  | poly :: rest =>
      let written := written ++ [WRecord i] in
      match exterior_coords poly with
      | Raise e => (written, Raise e)
      | Return ring => save_loop (i + 1) rest (written ++ [WPoly [ring]])
      end
  end.

(** [save_polygons(shapefile_path, *polygons)]; [None] when no writer is
    opened. *)
Definition save_polygons (polygons : list geometry)
  : option (list writer_call * outcome unit) :=
  match polygons with
  | [] => None
  | _ :: _ => Some (save_loop 0 polygons [WField "id" "N"])
  end.

(** The ids of the records and the rings of the shapes among the calls. *)
Definition record_ids (written : list writer_call) : list Z :=
  flat_map (fun c => match c with WRecord id => [id] | _ => [] end) written.

Definition shapes (written : list writer_call) : list (list (list coords)) :=
  flat_map (fun c => match c with WPoly rings => [rings] | _ => [] end) written.

End Save.

Arguments save_loop {B geometry} exterior_coords i polygons written.
Arguments save_polygons {B geometry} exterior_coords polygons.

(** ** Further vocabulary *)

Section Words.

Context {B : Builtins}.

(** The polygons of the parts of a record. *)
Definition record_polygons (sr : shape_record) : list polygon :=
  gen_polygons_from_shape (sr_shape sr).

(** The records whose polygons the second loop gathers. *)
Definition matched (sd : seed) (sr : shape_record) : bool :=
  match matches sd sr with
  | Return true => true
  | Return false | Raise _ => false
  end.

(** The number the area update adds for column [k] of a record: a number as
    it is, a string through [float] after its commas are replaced. *)
Definition parsed_area (k : nat) (sr : shape_record) : option float :=
  match nth_error (sr_record sr) k with
  | Some (VNum v) => Some v
  | Some (VStr s) => py_float (replace_comma s)
  | Some VNone | None => None
  end.

(** The polygons of a returned basin; [None] for [None] and [None, None]. *)
Definition basin_of (r : result) : option (list polygon) :=
  match r with
  | RNone | RNonePair => None
  | RBasin g | RBasinArea g _ | RBasinAreaReach g _ _ => Some g
  end.

(** The length of the returned tuple; [None] when the value returned is not
    a tuple. *)
Definition tuple_length (r : result) : option nat :=
  match r with
  | RNone | RBasin _ => None
  | RNonePair | RBasinArea _ _ => Some 2%nat
  | RBasinAreaReach _ _ _ => Some 3%nat
  end.

(** [1, 2, ..., m] *)
Definition upto (m : Z) : list Z := map Z.of_nat (seq 1 (Z.to_nat m)).

(** The reports so far are [1, ..., current_progress]. *)
Definition counted (st : progress_state) : Prop :=
  0 <= current_progress st /\ reported st = upto (current_progress st).

(** Offsets that do not decrease and end within [n]. *)
Fixpoint ascending (offsets : list nat) (n : nat) : Prop :=
  match offsets with
  | [] => True
  | a :: rest =>
      match rest with
      | [] => (a <= n)%nat
      | b :: _ => (a <= b)%nat /\ ascending rest n
      end
  end.

End Words.

(** More inputs to run the functions on.  Geometries for [save_polygons]
    are a polygon with its exterior ring, or a collection, which has
    none. *)
Module RunMore.

Import Run.

Inductive geom : Type :=
| GPolygon (exterior : list (Q * Q))
| GMulti (polygons : list (list (Q * Q))).

Definition exterior_of (g : geom) : outcome (list (Q * Q)) :=
  match g with
  | GPolygon ring => Return ring
  | GMulti _ => Raise AttributeError
  end.

(** A record on reach ["10"] whose shape has no part and whose area is not
    a number. *)
Definition R0 : shape_record :=
  {| sr_shape := {| bbox := (0 # 1, 0 # 1, 1 # 1, 1 # 1); points := []; parts := [] |};
     sr_record := [VStr "10"; VStr "150"; VStr "n/a"] |}.

End RunMore.


(** * Properties *)

(** ** Strings *)

Lemma length_slice_to (n : nat) (s : string) :
  String.length (slice_to n s) = Nat.min n (String.length s).
Proof.
  unfold slice_to. revert n.
  induction s as [|c s IH]; intros [|n]; simpl; auto.
Qed.

Lemma length_append (s t : string) :
  String.length (s ++ t) = (String.length s + String.length t)%nat.
Proof. induction s as [|c s IH]; simpl; auto. Qed.

Lemma length_repeat_char (c : ascii) (n : nat) :
  String.length (repeat_char c n) = n.
Proof. induction n as [|n IH]; simpl; auto. Qed.

Lemma append_empty (s : string) : (s ++ "")%string = s.
Proof. induction s as [|c s IH]; simpl; congruence. Qed.

Lemma slice_to_all (s : string) : slice_to (String.length s) s = s.
Proof. unfold slice_to. induction s as [|c s IH]; simpl; congruence. Qed.

(** A normalized code has the length asked for. *)
Lemma normalize_length (L : nat) (code : string) :
  String.length (normalize L code) = L.
Proof.
  unfold normalize, ljust.
  rewrite length_append, length_repeat_char, length_slice_to. lia.
Qed.

(** A code of the length asked for is left as it is. *)
Lemma normalize_same (code : string) :
  normalize (String.length code) code = code.
Proof.
  unfold normalize, ljust. rewrite slice_to_all, Nat.sub_diag. apply append_empty.
Qed.

Section Facts.

Context {B : Builtins}.
Variable within : coords -> polygon -> bool.

(** ** Progress reports *)

Lemma sorted_snoc (l : list Z) (v : Z) :
  StronglySorted Z.lt l -> Forall (fun u => u < v) l ->
  StronglySorted Z.lt (l ++ [v]).
Proof.
  induction l as [|u l IH]; simpl; intros Hs Hb.
  - repeat constructor.
  - inversion Hs as [|? ? Hs' Hu]; subst.
    inversion Hb as [|? ? Huv Hb']; subst.
    constructor; [now apply IH|].
    apply Forall_app; split; [assumption|now repeat constructor].
Qed.

Lemma well_reported_initial : well_reported initial_state.
Proof. split; constructor. Qed.

Lemma report_well_reported (progress : Z) (st : progress_state) :
  well_reported st -> well_reported (report progress st).
Proof.
  intros [Hs Hb]. unfold report.
  destruct (current_progress st <? progress); [|now split].
  split; simpl.
  - apply sorted_snoc; [assumption|].
    eapply Forall_impl; [|exact Hb]. simpl; intros; lia.
  - apply Forall_app; split.
    + eapply Forall_impl; [|exact Hb]. simpl; intros; lia.
    + repeat constructor. lia.
Qed.

Lemma report_bound (progress bound : Z) (st : progress_state) :
  current_progress st <= bound -> progress <= bound ->
  current_progress (report progress st) <= bound.
Proof.
  intros Hc Hp. unfold report.
  destruct (current_progress st <? progress) eqn:E; simpl; [|assumption].
  apply Z.ltb_lt in E. lia.
Qed.

Lemma find_seed_well_reported (fc : Z) (point : coords) (rs : list shape_record) :
  forall i st, well_reported st ->
  well_reported (fst (find_seed within fc point i rs st)).
Proof.
  induction rs as [|sr rs IH]; simpl; intros i st H; [assumption|].
  destruct (is_within_shape within point (sr_shape sr)); [assumption|].
  apply IH. now apply report_well_reported.
Qed.

Lemma share_le_50 (i fc : Z) : 0 <= i -> i + 1 <= fc -> ((i + 1) * 50) / fc <= 50.
Proof.
  intros Hi Hfc. apply Z.div_le_upper_bound; lia.
Qed.

Lemma find_seed_bound (fc : Z) (point : coords) (rs : list shape_record) :
  forall i st, 0 <= i -> i + Z.of_nat (List.length rs) <= fc ->
  current_progress st <= 50 ->
  current_progress (fst (find_seed within fc point i rs st)) <= 50.
Proof.
  induction rs as [|sr rs IH]; simpl List.length; simpl find_seed;
    intros i st Hi Hfc Hc; [assumption|].
  destruct (is_within_shape within point (sr_shape sr)); [assumption|].
  apply IH; [lia|lia|].
  apply report_bound; [assumption|]. apply share_le_50; lia.
Qed.

Lemma aggregate_well_reported (fc : Z) (sd : seed) (rs : list shape_record) :
  forall i acc st, well_reported st ->
  well_reported (fst (aggregate fc sd i rs acc st)).
Proof.
  induction rs as [|sr rs IH]; simpl; intros i acc st H; [assumption|].
  destruct (visit sd sr acc); [|assumption].
  apply IH. now apply report_well_reported.
Qed.

Lemma find_seed_none (fc : Z) (point : coords) (rs : list shape_record) :
  (forall sr, In sr rs -> is_within_shape within point (sr_shape sr) = false) ->
  forall i st, snd (find_seed within fc point i rs st) = None.
Proof.
  induction rs as [|sr rs IH]; simpl; intros H i st; [reflexivity|].
  rewrite (H sr (or_introl eq_refl)). apply IH. intros; apply H; now right.
Qed.

(** The state in which the first loop of a call ends. *)
Lemma first_pass_state (shp : reader) (point : coords) :
  let st := fst (find_seed within (Z.of_nat (List.length (records shp))) point 0
                   (records shp) initial_state) in
  well_reported st /\ current_progress st <= 50.
Proof.
  split.
  - apply find_seed_well_reported, well_reported_initial.
  - apply find_seed_bound; simpl; lia.
Qed.

(** C7: within one call of [find_basin_adaptado], whatever its arguments
    and however it ends, the values passed to the progress callback increase
    strictly: every value is greater than all the values reported before
    it. *)
Theorem progress_strictly_increasing (shp : reader) (reach_field basin_field : string)
    (x y : float) (area_field : option string) (return_reach : bool) :
  StronglySorted Z.lt
    (reported (fst (find_basin_adaptado within shp reach_field basin_field x y
                      area_field return_reach))).
Proof.
  unfold find_basin_adaptado.
  destruct (first_pass_state shp (x, y)) as [[Hs Hb] Hc].
  destruct (find_seed within _ (x, y) 0 (records shp) initial_state)
    as [st [sr|]]; simpl in Hs, Hb, Hc.
  - destruct (read_seed _ _ _ _ sr) as [sd|e]; simpl; [|assumption].
    pose proof (aggregate_well_reported (Z.of_nat (List.length (records shp))) sd
                  (records shp) 0 initial_acc st (conj Hs Hb)) as [Hs' _].
    destruct (aggregate _ sd 0 (records shp) initial_acc st); assumption.
  - simpl. apply sorted_snoc; [assumption|].
    eapply Forall_impl; [|exact Hb]. simpl; intros; lia.
Qed.

(** ** Containment *)

Lemma any_within_true (point : coords) (polys : list polygon) :
  fst (any_within within point polys) = true <->
  exists poly, In poly polys /\ within point poly = true.
Proof.
  induction polys as [|poly rest IH]; simpl.
  - split; [discriminate|intros [? [[] _]]].
  - destruct (within point poly) eqn:E; simpl.
    + split; [intros _; exists poly; auto|reflexivity].
    + destruct (any_within within point rest) as [b tested]; simpl in *.
      rewrite IH. split; intros [q [Hq Hw]].
      * exists q; auto.
      * destruct Hq as [<-|Hq]; [congruence|exists q; auto].
Qed.

(** C4: the containment test answers true exactly when the point is inside
    the bounding box, with inclusive comparisons on both axes, and
    [point.within] holds of at least one of the polygons of the parts; no
    part is subtracted.  Outside the bounding box it answers false and
    [point.within] is called on no polygon. *)
Theorem is_within_shape_iff (point : coords) (sh : shape) :
  (is_within_shape within point sh = true <->
     is_within_bounds point (bbox sh) = true
     /\ exists poly, In poly (gen_polygons_from_shape sh)
                     /\ within point poly = true)
  /\ (forall x1 y1 x2 y2,
        is_within_bounds point (x1, y1, x2, y2) = true <->
        float_le x1 (fst point) = true /\ float_le (fst point) x2 = true
        /\ float_le y1 (snd point) = true /\ float_le (snd point) y2 = true)
  /\ (is_within_bounds point (bbox sh) = false ->
      is_within_shape_tests within point sh = (false, [])).
Proof.
  unfold is_within_shape, is_within_shape_tests.
  split; [|split].
  - destruct (is_within_bounds point (bbox sh)); simpl.
    + rewrite any_within_true. tauto.
    + split; [discriminate|intros [? _]; discriminate].
  - intros x1 y1 x2 y2. unfold is_within_bounds.
    rewrite !andb_true_iff. tauto.
  - intros ->. reflexivity.
Qed.

(** ** The seed *)

Lemma find_seed_find (fc : Z) (point : coords) (rs : list shape_record) :
  forall i st,
  snd (find_seed within fc point i rs st) = find (contains within point) rs.
Proof.
  induction rs as [|sr rs IH]; simpl; intros i st; [reflexivity|].
  unfold contains at 1.
  destruct (is_within_shape within point (sr_shape sr)); [reflexivity|apply IH].
Qed.

Lemma find_seed_stops (fc : Z) (point : coords) (pre : list shape_record)
    (sr : shape_record) (post : list shape_record) :
  contains within point sr = true ->
  forall i st,
  find_seed within fc point i (pre ++ sr :: post) st
  = (fst (find_seed within fc point i pre st),
     match snd (find_seed within fc point i pre st) with
     | Some sr' => Some sr'
     | None => Some sr
     end).
Proof.
  intros Hsr. induction pre as [|r pre IH]; simpl; intros i st.
  - unfold contains in Hsr. now rewrite Hsr.
  - destruct (is_within_shape within point (sr_shape r)); [reflexivity|apply IH].
Qed.

(** C5: for every record sequence and point, the seed of the first loop is
    the first record, in iteration order, that the containment test accepts;
    and the loop stops there: when no record before [sr] contains the point
    and [sr] does, the loop ends with [sr] in the state reached after the
    records before it, whatever records follow. *)
Theorem seed_is_first_containing (fc : Z) (point : coords) (i : Z)
    (rs : list shape_record) (st : progress_state) :
  snd (find_seed within fc point i rs st) = find (contains within point) rs
  /\ forall pre sr post,
       rs = pre ++ sr :: post ->
       (forall r, In r pre -> contains within point r = false) ->
       contains within point sr = true ->
       find_seed within fc point i rs st
       = (fst (find_seed within fc point i pre st), Some sr)
       /\ forall post',
            find_seed within fc point i (pre ++ sr :: post') st
            = find_seed within fc point i rs st.
Proof.
  split; [apply find_seed_find|].
  intros pre sr post -> Hpre Hsr.
  assert (Hnone : snd (find_seed within fc point i pre st) = None)
    by (apply find_seed_none; exact Hpre).
  split; [|intros post'];
    rewrite !find_seed_stops by exact Hsr; rewrite Hnone; reflexivity.
Qed.

(** The delineation goes on from the first record that contains the point:
    the seed data are read from it. *)
Lemma find_basin_adaptado_found (shp : reader) (reach_field basin_field : string)
    (x y : float) (area_field : option string) (return_reach : bool)
    (sr : shape_record) :
  find (contains within (x, y)) (records shp) = Some sr ->
  exists st,
    find_basin_adaptado within shp reach_field basin_field x y area_field return_reach
    = match read_seed (fields shp) reach_field basin_field area_field sr with
      | Raise e => (st, Raise e)
      | Return sd =>
          let '(st', r) :=
            aggregate (Z.of_nat (List.length (records shp))) sd 0 (records shp)
              initial_acc st in
          (st', acc <- r ;; Return (pack area_field return_reach sd acc))
      end.
Proof.
  intros Hfind. unfold find_basin_adaptado.
  rewrite <- (find_seed_find (Z.of_nat (List.length (records shp))) (x, y)
                (records shp) 0 initial_state) in Hfind.
  destruct (find_seed within _ (x, y) 0 (records shp) initial_state) as [st o].
  simpl in Hfind. subst o. now exists st.
Qed.

(** ** No record contains the point *)

Lemma count_occ_below (l : list Z) (bound v : Z) :
  Forall (fun u => u <= bound) l -> bound < v -> count_occ Z.eq_dec l v = 0%nat.
Proof.
  intros Hb Hv. apply count_occ_not_In. intros Hin.
  rewrite Forall_forall in Hb. apply Hb in Hin. lia.
Qed.

(** C6: when no record contains the point, the call returns [None], or
    [None, None] when an area field was named, and raises nothing; the
    progress callback receives the value 100 exactly once, as its last
    call. *)
Theorem not_found_returns_none (shp : reader) (reach_field basin_field : string)
    (x y : float) (area_field : option string) (return_reach : bool) :
  (forall sr, In sr (records shp) -> contains within (x, y) sr = false) ->
  snd (find_basin_adaptado within shp reach_field basin_field x y area_field
         return_reach)
  = Return (match area_field with Some _ => RNonePair | None => RNone end)
  /\ count_occ Z.eq_dec
       (reported (fst (find_basin_adaptado within shp reach_field basin_field x y
                         area_field return_reach))) 100 = 1%nat
  /\ last (reported (fst (find_basin_adaptado within shp reach_field basin_field
                            x y area_field return_reach))) 0 = 100.
Proof.
  intros Hnone. unfold find_basin_adaptado.
  destruct (first_pass_state shp (x, y)) as [[Hs Hb] Hc].
  pose proof (find_seed_none (Z.of_nat (List.length (records shp))) (x, y)
                (records shp) Hnone 0 initial_state) as Hn.
  destruct (find_seed within _ (x, y) 0 (records shp) initial_state) as [st o].
  simpl in Hs, Hb, Hc, Hn. subst o. simpl.
  split; [reflexivity|split].
  - rewrite count_occ_app, (count_occ_below (reported st) 50 100);
      [reflexivity| |lia].
    eapply Forall_impl; [|exact Hb]. simpl; intros; lia.
  - apply last_last.
Qed.

(** ** The matcher *)

Lemma read_seed_fields (fs : list string) (reach_field basin_field : string)
    (area_field : option string) (sr : shape_record) (sd : seed) :
  read_seed fs reach_field basin_field area_field sr = Return sd ->
  index fs reach_field = Some (reach_index sd)
  /\ index fs basin_field = Some (basin_index sd)
  /\ item (sr_record sr) (reach_index sd) = Return (selected_reach sd)
  /\ (exists code,
        item (sr_record sr) (basin_index sd) = Return code
        /\ int_value code = Return (selected_basin_int sd)
        /\ len_value code = Return (selected_basin_length sd))
  /\ match area_field with
     | Some name =>
         exists k, area_index sd = Some k /\ index fs name = Some k
     | None => area_index sd = None
     end.
Proof.
  unfold read_seed, field_index.
  destruct (index fs reach_field) as [ri|]; simpl; [|discriminate].
  destruct (index fs basin_field) as [bi|]; simpl; [|discriminate].
  assert (Hrest : forall ai,
    (selected_reach <- item (sr_record sr) ri ;;
     selected_basin <- item (sr_record sr) bi ;;
     selected_basin_int <- int_value selected_basin ;;
     selected_basin_length <- len_value selected_basin ;;
     Return {| reach_index := ri; basin_index := bi; area_index := ai;
               selected_reach := selected_reach;
               selected_basin_int := selected_basin_int;
               selected_basin_length := selected_basin_length |}) = Return sd ->
    Some ri = Some (reach_index sd) /\ Some bi = Some (basin_index sd)
    /\ item (sr_record sr) (reach_index sd) = Return (selected_reach sd)
    /\ (exists code,
          item (sr_record sr) (basin_index sd) = Return code
          /\ int_value code = Return (selected_basin_int sd)
          /\ len_value code = Return (selected_basin_length sd))
    /\ area_index sd = ai).
  { intros ai.
    destruct (item (sr_record sr) ri) as [vr|] eqn:Er; simpl; [|discriminate].
    destruct (item (sr_record sr) bi) as [vb|] eqn:Eb; simpl; [|discriminate].
    destruct (int_value vb) as [z|] eqn:Ez; simpl; [|discriminate].
    destruct (len_value vb) as [n|] eqn:En; simpl; [|discriminate].
    intros [= <-]; simpl. repeat split; auto. exists vb; auto. }
  destruct area_field as [name|]; simpl.
  - destruct (index fs name) as [k|]; simpl; [|discriminate].
    destruct (item (sr_record sr) k); simpl; [|discriminate].
    intros H. apply Hrest in H. destruct H as (H1 & H2 & H3 & H4 & H5).
    repeat split; auto. exists k; auto.
  - intros H. apply Hrest in H. tauto.
Qed.

(** C3: let the seed have reach code [R] and basin code [Bc], both strings,
    and let the candidate have reach code [r] and basin code [b].  The
    candidate matches exactly when [r] starts with [R] and the integer read
    from [b], cut to its first [len(Bc)] characters and then padded on the
    right with ['0'] to that length, is at least [int(Bc)].  It is rejected
    exactly when [r] does not start with [R] or that integer is smaller. *)
Theorem matches_iff (fs : list string) (reach_field basin_field : string)
    (area_field : option string) (seed_record candidate : shape_record)
    (sd : seed) (R Bc r b : string) :
  read_seed fs reach_field basin_field area_field seed_record = Return sd ->
  attribute fs reach_field seed_record = Return (VStr R) ->
  attribute fs basin_field seed_record = Return (VStr Bc) ->
  attribute fs reach_field candidate = Return (VStr r) ->
  attribute fs basin_field candidate = Return (VStr b) ->
  let L := String.length Bc in
  (matches sd candidate = Return true <->
     startswith r R = true
     /\ exists v sb, py_int Bc = Some sb
                     /\ py_int (ljust (slice_to L b) L "0") = Some v
                     /\ sb <= v)
  /\ (matches sd candidate = Return false <->
     startswith r R = false
     \/ exists v sb, py_int Bc = Some sb
                     /\ py_int (ljust (slice_to L b) L "0") = Some v
                     /\ v < sb).
Proof.
  intros Hsd HR HB Hr Hb L.
  apply read_seed_fields in Hsd.
  destruct Hsd as (Hri & Hbi & HsR & (code & Hcode & Hint & Hlen) & _).
  unfold attribute, field_index in HR, HB, Hr, Hb.
  rewrite Hri in HR, Hr. rewrite Hbi in HB, Hb. simpl in HR, HB, Hr, Hb.
  rewrite HR in HsR. injection HsR as HsR.
  rewrite HB in Hcode. injection Hcode as <-.
  simpl in Hint, Hlen. injection Hlen as Hlen.
  unfold int_str in Hint.
  destruct (py_int Bc) as [sb|] eqn:Esb; [|discriminate].
  injection Hint as Hint.
  unfold matches. rewrite Hr. simpl. rewrite <- HsR. simpl.
  destruct (startswith r R) eqn:Ep; simpl.
  - rewrite Hb. simpl. rewrite <- Hlen. fold L.
    unfold normalize, int_str.
    destruct (py_int (ljust (slice_to L b) L "0")) as [v|] eqn:Ev; simpl.
    + rewrite <- Hint. split; split.
      * intros [= H]. apply Z.leb_le in H. split; [reflexivity|].
        exists v, sb; auto.
      * intros [_ (v' & sb' & [= <-] & [= <-] & H)].
        apply Z.leb_le in H. now rewrite H.
      * intros [= H]. apply Z.leb_gt in H. right. exists v, sb; auto.
      * intros [H|(v' & sb' & [= <-] & [= <-] & H)]; [discriminate|].
        apply Z.leb_gt in H. now rewrite H.
    + split; split; try discriminate.
      * intros [_ (v' & sb' & _ & H & _)]; discriminate.
      * intros [H|(v' & sb' & _ & H & _)]; discriminate.
  - split; split; try discriminate; auto.
    intros [H _]; discriminate.
Qed.

(** ** The area sum *)

Lemma add_area_str (k : nat) (record : list value) (s : string) (a : float) :
  nth_error record k = Some (VStr s) ->
  add_area k record a = (f <- float_str (replace_comma s) ;; Return (float_add a f)).
Proof.
  intros H. unfold add_area, item. rewrite H. simpl.
  unfold float_str. destruct (py_float (replace_comma s)); reflexivity.
Qed.

Lemma add_area_num (k : nat) (record : list value) (v a : float) :
  nth_error record k = Some (VNum v) ->
  add_area k record a = Return (float_add a v).
Proof.
  intros H. unfold add_area, item. rewrite H. reflexivity.
Qed.

(** A record whose visit raises, whatever was gathered before it, makes the
    second loop raise. *)
Lemma aggregate_raises (fc : Z) (sd : seed) (sr : shape_record)
    (rs : list shape_record) :
  (forall acc, exists e, visit sd sr acc = Raise e) ->
  In sr rs ->
  forall i acc st, exists e, snd (aggregate fc sd i rs acc st) = Raise e.
Proof.
  intros Hsr. induction rs as [|r rs IH]; simpl; intros Hin i acc st; [easy|].
  destruct (visit sd r acc) as [acc'|e] eqn:E; simpl.
  - destruct Hin as [->|Hin]; [|now apply IH].
    destruct (Hsr acc) as [e He]. congruence.
  - now exists e.
Qed.

(** C8: the update of [area] reads the string ["12,5"] as [float("12.5")],
    adds a value that is already a number as it is, and raises [ValueError]
    on a string that [float] rejects after its commas are replaced; and when
    a matched record with at least one part carries such a string, the whole
    call raises and returns no sum. *)
Theorem area_parsing :
  (forall a, add_area 0 [VStr "12,5"] a
             = (f <- float_str "12.5" ;; Return (float_add a f)))
  /\ (forall k record v a,
        nth_error record k = Some (VNum v) ->
        add_area k record a = Return (float_add a v))
  /\ (forall k record s a,
        nth_error record k = Some (VStr s) ->
        py_float (replace_comma s) = None ->
        add_area k record a = Raise ValueError)
  /\ (forall shp reach_field basin_field x y name return_reach st seed_record sd sr s,
        find_seed within (Z.of_nat (List.length (records shp))) (x, y) 0
          (records shp) initial_state = (st, Some seed_record) ->
        read_seed (fields shp) reach_field basin_field (Some name) seed_record
          = Return sd ->
        In sr (records shp) ->
        matches sd sr = Return true ->
        gen_polygons_from_shape (sr_shape sr) <> [] ->
        attribute (fields shp) name sr = Return (VStr s) ->
        py_float (replace_comma s) = None ->
        exists e,
          snd (find_basin_adaptado within shp reach_field basin_field x y
                 (Some name) return_reach) = Raise e).
Proof.
  split; [|split; [|split]].
  - intros a. now rewrite (add_area_str 0 [VStr "12,5"] "12,5" a eq_refl).
  - intros; now apply add_area_num.
  - intros k record s a Hk Hs. rewrite (add_area_str _ _ _ a Hk).
    unfold float_str. now rewrite Hs.
  - intros shp reach_field basin_field x y name return_reach st seed_record sd sr s
           Hseed Hsd Hin Hm Hparts Hattr Hs.
    unfold find_basin_adaptado. rewrite Hseed, Hsd.
    destruct (read_seed_fields _ _ _ _ _ _ Hsd) as (_ & _ & _ & _ & k & Hk & Hname).
    unfold attribute, field_index in Hattr. rewrite Hname in Hattr. simpl in Hattr.
    unfold item in Hattr.
    destruct (nth_error (sr_record sr) k) as [v|] eqn:Ev; [|discriminate].
    injection Hattr as ->.
    assert (Hvisit : forall acc, exists e, visit sd sr acc = Raise e).
    { intros acc. exists ValueError. unfold visit. rewrite Hm. simpl.
      destruct (gen_polygons_from_shape (sr_shape sr)) as [|poly rest];
        [contradiction|].
      simpl. rewrite Hk, (add_area_str _ _ _ _ Ev). unfold float_str.
      now rewrite Hs. }
    destruct (aggregate_raises (Z.of_nat (List.length (records shp))) sd sr
                (records shp) Hvisit Hin 0 initial_acc st) as [e He].
    destruct (aggregate _ sd 0 (records shp) initial_acc st) as [st' r].
    simpl in He. subst r. now exists e.
Qed.

(** The loop over the parts adds a numeric area once for every part. *)
Lemma add_parts_num (sd : seed) (sr : shape_record) (k : nat) (v : float)
    (polys : list polygon) :
  area_index sd = Some k ->
  nth_error (sr_record sr) k = Some (VNum v) ->
  forall acc,
  add_parts sd sr polys acc
  = Return {| basin_polygons := basin_polygons acc ++ polys;
              area := fold_left (fun a _ => float_add a v) polys (area acc) |}.
Proof.
  intros Hk Hv. induction polys as [|poly rest IH]; simpl; intros acc.
  - rewrite app_nil_r. now destruct acc.
  - rewrite Hk, (add_area_num _ _ _ _ Hv). simpl. rewrite IH. simpl.
    now rewrite <- app_assoc.
Qed.

(** ** The returned tuple *)

(** With no area field named, [return_reach] changes nothing. *)
Lemma return_reach_unused_without_area (shp : reader) (reach_field basin_field : string)
    (x y : float) :
  find_basin_adaptado within shp reach_field basin_field x y None true
  = find_basin_adaptado within shp reach_field basin_field x y None false.
Proof. reflexivity. Qed.

(** ** No area field *)

Lemma find_seed_same_but (k : nat) (fc : Z) (point : coords)
    (rs1 rs2 : list shape_record) :
  Forall2 (same_but k) rs1 rs2 ->
  forall i st,
  fst (find_seed within fc point i rs1 st) = fst (find_seed within fc point i rs2 st)
  /\ match snd (find_seed within fc point i rs1 st),
           snd (find_seed within fc point i rs2 st) with
     | Some sr1, Some sr2 => same_but k sr1 sr2
     | None, None => True
     | _, _ => False
     end.
Proof.
  induction 1 as [|sr1 sr2 rs1 rs2 Hsr _ IH]; simpl; intros i st; [auto|].
  destruct Hsr as [Hshape Hrec]. rewrite <- Hshape.
  destruct (is_within_shape within point (sr_shape sr1)); simpl.
  - repeat split; assumption.
  - apply IH.
Qed.

Lemma item_same_but (k j : nat) (sr1 sr2 : shape_record) :
  same_but k sr1 sr2 -> j <> k ->
  item (sr_record sr1) j = item (sr_record sr2) j.
Proof.
  intros [_ H] Hj. unfold item. now rewrite (H j Hj).
Qed.

Lemma read_seed_same_but (k : nat) (fs : list string) (reach_field basin_field : string)
    (sr1 sr2 : shape_record) :
  same_but k sr1 sr2 ->
  index fs reach_field <> Some k -> index fs basin_field <> Some k ->
  read_seed fs reach_field basin_field None sr1
  = read_seed fs reach_field basin_field None sr2.
Proof.
  intros Hsr Hr Hb. unfold read_seed, field_index.
  destruct (index fs reach_field) as [ri|]; simpl; [|reflexivity].
  destruct (index fs basin_field) as [bi|]; simpl; [|reflexivity].
  rewrite (item_same_but k ri sr1 sr2), (item_same_but k bi sr1 sr2);
    congruence.
Qed.

Lemma add_parts_no_area (sd : seed) (sr1 sr2 : shape_record) (polys : list polygon) :
  area_index sd = None ->
  forall acc, add_parts sd sr1 polys acc = add_parts sd sr2 polys acc.
Proof.
  intros Hai. induction polys as [|poly rest IH]; simpl; intros acc; [reflexivity|].
  rewrite Hai. simpl. apply IH.
Qed.

Lemma visit_same_but (k : nat) (sd : seed) (sr1 sr2 : shape_record) (acc : basin_acc) :
  same_but k sr1 sr2 ->
  area_index sd = None -> reach_index sd <> k -> basin_index sd <> k ->
  visit sd sr1 acc = visit sd sr2 acc.
Proof.
  intros Hsr Hai Hr Hb. unfold visit, matches.
  rewrite (item_same_but _ _ _ _ Hsr Hr), (item_same_but _ _ _ _ Hsr Hb).
  destruct Hsr as [<- _].
  destruct (item (sr_record sr2) (reach_index sd)) as [reach|]; simpl; [|reflexivity].
  destruct (startswith_value reach (selected_reach sd)) as [[|]|]; simpl;
    try reflexivity.
  destruct (item (sr_record sr2) (basin_index sd)) as [code|]; simpl; [|reflexivity].
  destruct (normalize_value (selected_basin_length sd) code) as [basin|]; simpl;
    [|reflexivity].
  destruct (int_str basin) as [basin_int|]; simpl; [|reflexivity].
  destruct (selected_basin_int sd <=? basin_int); [|reflexivity].
  now apply add_parts_no_area.
Qed.

Lemma aggregate_same_but (k : nat) (fc : Z) (sd : seed) (rs1 rs2 : list shape_record) :
  area_index sd = None -> reach_index sd <> k -> basin_index sd <> k ->
  Forall2 (same_but k) rs1 rs2 ->
  forall i acc st, aggregate fc sd i rs1 acc st = aggregate fc sd i rs2 acc st.
Proof.
  intros Hai Hr Hb. induction 1 as [|sr1 sr2 rs1 rs2 Hsr _ IH]; simpl;
    intros i acc st; [reflexivity|].
  rewrite (visit_same_but _ _ _ _ acc Hsr Hai Hr Hb).
  destruct (visit sd sr2 acc); [apply IH|reflexivity].
Qed.

(** C10: with no area field named, the call reads no area attribute: two
    record sources with the same fields and the same shapes, whose records
    differ at most in one column that is neither the reach nor the basin
    field, whatever that column holds, give the same progress reports and
    the same outcome, be it a result or an exception. *)
Theorem no_area_field_ignores_area (shp1 shp2 : reader) (reach_field basin_field : string)
    (x y : float) (return_reach : bool) (k : nat) :
  fields shp1 = fields shp2 ->
  Forall2 (same_but k) (records shp1) (records shp2) ->
  index (fields shp1) reach_field <> Some k ->
  index (fields shp1) basin_field <> Some k ->
  find_basin_adaptado within shp1 reach_field basin_field x y None return_reach
  = find_basin_adaptado within shp2 reach_field basin_field x y None return_reach.
Proof.
  intros Hfs Hrs Hr Hb. unfold find_basin_adaptado.
  rewrite <- Hfs, <- (Forall2_length Hrs).
  set (fc := Z.of_nat (List.length (records shp1))).
  destruct (find_seed_same_but k fc (x, y) _ _ Hrs 0 initial_state) as [Hst Ho].
  destruct (find_seed within fc (x, y) 0 (records shp1) initial_state) as [st1 o1].
  destruct (find_seed within fc (x, y) 0 (records shp2) initial_state) as [st2 o2].
  simpl in Hst, Ho. subst st2.
  destruct o1 as [sr1|], o2 as [sr2|]; try contradiction; [|reflexivity].
  rewrite (read_seed_same_but _ _ _ _ _ _ Ho Hr Hb).
  destruct (read_seed (fields shp1) reach_field basin_field None sr2) as [sd|e] eqn:Esd;
    [|reflexivity].
  destruct (read_seed_fields _ _ _ _ _ _ Esd) as (Hri & Hbi & _ & _ & Hai).
  rewrite (aggregate_same_but k fc sd (records shp1) (records shp2)); try assumption.
  - reflexivity.
  - intros E. apply Hr. now rewrite Hri, E.
  - intros E. apply Hb. now rewrite Hbi, E.
Qed.

End Facts.

(** * The functions run on the layers *)

Module Scenarios.

Import Run.

Lemma matches_iff_witness :
  (matches seed_R1 R2 = Return true <->
     startswith "10" "10" = true
     /\ exists v sb, py_int "100" = Some sb
                     /\ py_int (ljust (slice_to 3 "200") 3 "0") = Some v
                     /\ sb <= v)
  /\ (matches seed_R1 R2 = Return false <->
     startswith "10" "10" = false
     \/ exists v sb, py_int "100" = Some sb
                     /\ py_int (ljust (slice_to 3 "200") 3 "0") = Some v
                     /\ v < sb).
Proof.
  apply (matches_iff layer_fields "cocursodag" "cobacia" (Some "nuareacont")
           R1 R2 seed_R1 "10" "100" "10" "200"); reflexivity.
Defined.

Lemma seed_is_first_containing_witness :
  find_seed within_rect 3 (3 # 2, half) 0 [R1; R2; R3] initial_state
  = (fst (find_seed within_rect 3 (3 # 2, half) 0 [R1] initial_state), Some R2)
  /\ forall post',
       find_seed within_rect 3 (3 # 2, half) 0 ([R1] ++ R2 :: post') initial_state
       = find_seed within_rect 3 (3 # 2, half) 0 [R1; R2; R3] initial_state.
Proof.
  apply (proj2 (seed_is_first_containing (B:=rationals) within_rect 3 (3 # 2, half) 0
                  [R1; R2; R3] initial_state) [R1] R2 [R3]).
  - reflexivity.
  - intros r [<-|[]]. reflexivity.
  - reflexivity.
Defined.

Lemma not_found_returns_none_witness :
  snd (find_basin layer "cocursodag" "cobacia" (7 # 2) half (Some "nuareacont") true)
  = Return RNonePair
  /\ count_occ Z.eq_dec
       (reported (fst (find_basin layer "cocursodag" "cobacia" (7 # 2) half
                         (Some "nuareacont") true))) 100 = 1%nat
  /\ last (reported (fst (find_basin layer "cocursodag" "cobacia" (7 # 2) half
                            (Some "nuareacont") true))) 0 = 100.
Proof.
  apply (not_found_returns_none (B:=rationals) within_rect layer "cocursodag" "cobacia"
           (7 # 2) half (Some "nuareacont") true).
  intros sr [<-|[<-|[<-|[]]]]; reflexivity.
Defined.

Lemma area_parsing_witness :
  add_area 0 [VStr "12,5"] (0 # 1) = Return (25 # 2)
  /\ add_area 0 [VNum (25 # 2)] (0 # 1) = Return (25 # 2)
  /\ add_area 0 [VStr "abc"] (0 # 1) = Raise ValueError
  /\ exists e,
       snd (find_basin layer_bad_area "cocursodag" "cobacia" half half
              (Some "nuareacont") false) = Raise e.
Proof.
  destruct (area_parsing (B:=rationals) within_rect) as (H1 & H2 & H3 & H4).
  split; [|split; [|split]].
  - exact (H1 (0 # 1)).
  - exact (H2 0%nat [VNum (25 # 2)] (25 # 2) (0 # 1) eq_refl).
  - exact (H3 0%nat [VStr "abc"] "abc" (0 # 1) eq_refl eq_refl).
  - apply (H4 layer_bad_area "cocursodag" "cobacia" half half "nuareacont" false
              {| current_progress := 0; reported := [] |} R1 seed_R1 R4 "n/a");
      try reflexivity.
    + right; left; reflexivity.
    + discriminate.
Defined.

Lemma no_area_field_ignores_area_witness :
  find_basin layer "cocursodag" "cobacia" half half None true
  = find_basin layer_other_areas "cocursodag" "cobacia" half half None true.
Proof.
  apply (no_area_field_ignores_area (B:=rationals) within_rect layer layer_other_areas
           "cocursodag" "cobacia" half half true 2).
  - reflexivity.
  - repeat constructor; intros [|[|[|[|j]]]] Hj;
      solve [reflexivity | now destruct Hj].
  - discriminate.
  - discriminate.
Defined.

(** C1, where the code departs from the claim: the area is added inside the
    loop over the parts.  A layer of one record that has two parts and the
    area ["5"], queried inside its first part, returns the area 10, the
    area of the record counted once for each part, and not 5. *)
Theorem area_added_once_per_part :
  List.length (gen_polygons_from_shape (sr_shape M1)) = 2%nat
  /\ attribute layer_fields "nuareacont" M1 = Return (VStr "5")
  /\ find_basin layer_two_parts "cocursodag" "cobacia" half half
       (Some "nuareacont") false
     = ({| current_progress := 1; reported := [1] |},
        Return (RBasinArea [ring 0 0 1 1; ring 2 0 3 1] (10 # 1))).
Proof. repeat split. Qed.

(** C2, where the code departs from the claim: [current_progress] grows by
    one for each report, so on a short layer it never reaches the computed
    percentage.  On a layer of one record that contains the point the only
    value the callback receives is 1, and the call returns the basin. *)
Theorem single_record_reports_one :
  find_basin layer_single "cocursodag" "cobacia" half half None false
  = ({| current_progress := 1; reported := [1] |},
     Return (RBasin [ring 0 0 1 1])).
Proof. reflexivity. Qed.

(** C9, where the code departs from the claim: with [return_reach] set and
    no area field the call on a layer whose one record contains the point
    returns the basin alone, without the reach code of the seed; with an
    area field it returns basin, area and reach code. *)
Theorem reach_dropped_without_area_field :
  snd (find_basin layer_single "cocursodag" "cobacia" half half None true)
  = Return (RBasin [ring 0 0 1 1])
  /\ snd (find_basin layer_single "cocursodag" "cobacia" half half
            (Some "nuareacont") true)
     = Return (RBasinAreaReach [ring 0 0 1 1] (10 # 1) (VStr "10")).
Proof. split; reflexivity. Qed.

End Scenarios.

(** * Further properties *)

Section PolygonFacts.

Context {B : Builtins}.
Variable within : coords -> polygon -> bool.

(** ** The polygon assembler *)

Lemma slice_segment {A : Type} (a b : nat) (xs : list A) :
  xs = firstn a xs ++ slice a b xs ++ skipn (b - a) (skipn a xs).
Proof.
  unfold slice. now rewrite (firstn_skipn (b - a)), (firstn_skipn a).
Qed.

Lemma slice_then_rest {A : Type} (a b : nat) (xs : list A) :
  (a <= b)%nat -> slice a b xs ++ skipn b xs = skipn a xs.
Proof.
  intros Hab. unfold slice.
  replace (skipn b xs) with (skipn (b - a) (skipn a xs)).
  - apply firstn_skipn.
  - rewrite skipn_skipn. f_equal. lia.
Qed.

Lemma slice_to_end {A : Type} (a : nat) (xs : list A) :
  slice a (List.length xs) xs = skipn a xs.
Proof.
  unfold slice. apply firstn_all2. rewrite length_skipn. lia.
Qed.

Lemma slices_concat {A : Type} (xs : list A) (rest : list nat) :
  forall a, ascending (a :: rest) (List.length xs) ->
  List.concat (map (fun '(part_start, part_end) => slice part_start part_end xs)
            (combine (a :: rest) (rest ++ [List.length xs])))
  = skipn a xs.
Proof.
  induction rest as [|b rest IH]; intros a Hasc.
  - simpl. rewrite app_nil_r. apply slice_to_end.
  - destruct Hasc as [Hab Hrest].
    change (slice a b xs
            ++ List.concat (map (fun '(part_start, part_end) => slice part_start part_end xs)
                         (combine (b :: rest) (rest ++ [List.length xs])))
            = skipn a xs).
    rewrite (IH b Hrest). now apply slice_then_rest.
Qed.



(** X3: whatever the offsets are, also out of range or decreasing, every
    polygon is a run of consecutive points of the shape. *)
Theorem polygon_is_run_of_points (sh : shape) (poly : polygon) :
  In poly (gen_polygons_from_shape sh) ->
  exists before after, points sh = before ++ poly ++ after.
Proof.
  unfold gen_polygons_from_shape. intros Hin.
  apply in_map_iff in Hin. destruct Hin as [[a b] [<- _]].
  eexists _, _. apply slice_segment.
Qed.

(** ** The containment test *)

Lemma any_within_tests (point : coords) (polys : list polygon) :
  (fst (any_within within point polys) = true ->
     exists pre hit rest,
       polys = pre ++ hit :: rest
       /\ snd (any_within within point polys) = pre ++ [hit]
       /\ within point hit = true
       /\ Forall (fun p => within point p = false) pre)
  /\ (fst (any_within within point polys) = false ->
     snd (any_within within point polys) = polys
     /\ Forall (fun p => within point p = false) polys).
Proof.
  induction polys as [|poly rest IH]; simpl.
  - split; [discriminate|auto].
  - destruct (within point poly) eqn:E; simpl.
    + split; [|discriminate]. intros _. exists [], poly, rest. auto.
    + destruct (any_within within point rest) as [b tested]; simpl in *.
      destruct IH as [IHt IHf]. split; intros Hb.
      * destruct (IHt Hb) as (pre & hit & rest' & -> & -> & Hhit & Hpre).
        exists (poly :: pre), hit, rest'. auto.
      * destruct (IHf Hb) as [-> Hall]. auto.
Qed.

(** X4: the exact tests stop at the first polygon that contains the point.
    When the answer is true, [point.within] was called on the polygons up to
    and including the first one it holds of, and on none after it; when the
    answer is false, it was called on no polygon (outside the bounding box)
    or on every polygon, and held of none. *)
Theorem tests_stop_at_first_hit (point : coords) (sh : shape) :
  (is_within_shape within point sh = true ->
     exists pre hit rest,
       gen_polygons_from_shape sh = pre ++ hit :: rest
       /\ snd (is_within_shape_tests within point sh) = pre ++ [hit]
       /\ within point hit = true
       /\ Forall (fun p => within point p = false) pre)
  /\ (is_within_shape within point sh = false ->
     (is_within_bounds point (bbox sh) = false
      /\ snd (is_within_shape_tests within point sh) = [])
     \/ (is_within_bounds point (bbox sh) = true
         /\ snd (is_within_shape_tests within point sh) = gen_polygons_from_shape sh
         /\ Forall (fun p => within point p = false) (gen_polygons_from_shape sh))).
Proof.
  unfold is_within_shape, is_within_shape_tests.
  destruct (is_within_bounds point (bbox sh)); simpl.
  - destruct (any_within_tests point (gen_polygons_from_shape sh)) as [Ht Hf].
    split; [exact Ht|]. intros Hb. right. destruct (Hf Hb). auto.
  - split; [discriminate|auto].
Qed.


(** ** The normalized basin code *)

(** X6: the code cut and padded to length [L] has exactly [L] characters,
    and normalizing it again changes nothing. *)
Theorem normalize_idempotent (L : nat) (code : string) :
  String.length (normalize L code) = L
  /\ normalize L (normalize L code) = normalize L code.
Proof.
  split; [apply normalize_length|].
  rewrite <- (normalize_length L code) at 1. apply normalize_same.
Qed.

End PolygonFacts.

Section ProgressFacts.

Context {B : Builtins}.
Variable within : coords -> polygon -> bool.

(** ** The shape of the progress reports *)

Lemma upto_succ (m : Z) : 0 <= m -> upto (m + 1) = upto m ++ [m + 1].
Proof.
  intros Hm. unfold upto.
  replace (Z.to_nat (m + 1)) with (S (Z.to_nat m)) by lia.
  rewrite seq_S, map_app. simpl. do 2 f_equal. lia.
Qed.

Lemma upto_range (m : Z) : Forall (fun v => 1 <= v <= m) (upto m).
Proof.
  unfold upto. apply Forall_forall. intros v Hv.
  apply in_map_iff in Hv. destruct Hv as [k [<- Hk]].
  apply in_seq in Hk. lia.
Qed.

Lemma report_counted (progress : Z) (st : progress_state) :
  counted st -> counted (report progress st).
Proof.
  intros [Hc Hr]. unfold report.
  destruct (current_progress st <? progress); [|now split].
  split; simpl; [lia|]. now rewrite Hr, upto_succ.
Qed.

Lemma report_step (progress : Z) (st : progress_state) :
  current_progress (report progress st) <= current_progress st + 1.
Proof.
  unfold report. destruct (current_progress st <? progress); simpl; lia.
Qed.

Lemma find_seed_counted (fc : Z) (point : coords) (rs : list shape_record) :
  forall i st, counted st -> counted (fst (find_seed within fc point i rs st)).
Proof.
  induction rs as [|sr rs IH]; simpl; intros i st H; [assumption|].
  destruct (is_within_shape within point (sr_shape sr)); [assumption|].
  apply IH. now apply report_counted.
Qed.

Lemma aggregate_counted (fc : Z) (sd : seed) (rs : list shape_record) :
  forall i acc st, counted st -> counted (fst (aggregate fc sd i rs acc st)).
Proof.
  induction rs as [|sr rs IH]; simpl; intros i acc st H; [assumption|].
  destruct (visit sd sr acc); [|assumption].
  apply IH. now apply report_counted.
Qed.

(** The first loop reports at most once for each record it passes over. *)
Lemma find_seed_steps (fc : Z) (point : coords) (rs : list shape_record) :
  forall i st,
  current_progress (fst (find_seed within fc point i rs st))
  + match snd (find_seed within fc point i rs st) with
    | Some _ => 1
    | None => 0
    end
  <= current_progress st + Z.of_nat (List.length rs).
Proof.
  induction rs as [|sr rs IH]; simpl List.length; simpl find_seed; intros i st.
  - simpl. lia.
  - destruct (is_within_shape within point (sr_shape sr)); [simpl; lia|].
    specialize (IH (i + 1) (report (((i + 1) * 50) / fc) st)).
    pose proof (report_step (((i + 1) * 50) / fc) st). lia.
Qed.

Lemma aggregate_steps (fc : Z) (sd : seed) (rs : list shape_record) :
  forall i acc st,
  current_progress (fst (aggregate fc sd i rs acc st))
  <= current_progress st + Z.of_nat (List.length rs).
Proof.
  induction rs as [|sr rs IH]; cbn [List.length aggregate]; intros i acc st.
  - simpl. lia.
  - destruct (visit sd sr acc) as [acc'|e]; [|simpl; lia]. cbv zeta.
    specialize (IH (i + 1) acc' (report (50 + ((i + 1) * 50) / fc) st)).
    pose proof (report_step (50 + ((i + 1) * 50) / fc) st). lia.
Qed.

Lemma aggregate_bound (fc : Z) (sd : seed) (rs : list shape_record) :
  forall i acc st, 0 <= i -> i + Z.of_nat (List.length rs) <= fc ->
  current_progress st <= 100 ->
  current_progress (fst (aggregate fc sd i rs acc st)) <= 100.
Proof.
  induction rs as [|sr rs IH]; cbn [List.length aggregate];
    intros i acc st Hi Hfc Hc; [assumption|].
  destruct (visit sd sr acc) as [acc'|e]; [|assumption]. cbv zeta.
  apply IH; [lia|lia|].
  apply report_bound; [assumption|].
  pose proof (share_le_50 i fc Hi). lia.
Qed.

(** The reports of a call: [1, ..., current_progress], then 100 when no
    record contains the point. *)
Lemma reports_of_call (shp : reader) (reach_field basin_field : string)
    (x y : float) (area_field : option string) (return_reach : bool) :
  let st := fst (find_basin_adaptado within shp reach_field basin_field x y
                   area_field return_reach) in
  let n := Z.of_nat (List.length (records shp)) in
  0 <= current_progress st
  /\ match find (contains within (x, y)) (records shp) with
     | Some _ =>
         reported st = upto (current_progress st)
         /\ current_progress st <= 100
         /\ current_progress st <= 2 * n - 1
     | None =>
         reported st = upto (current_progress st) ++ [100]
         /\ current_progress st <= 50
     end.
Proof.
  unfold find_basin_adaptado.
  set (n := Z.of_nat (List.length (records shp))).
  rewrite <- (find_seed_find within n (x, y) (records shp) 0 initial_state).
  pose proof (find_seed_counted n (x, y) (records shp) 0 initial_state
                (conj (Z.le_refl 0) eq_refl)) as Hcount.
  pose proof (find_seed_steps n (x, y) (records shp) 0 initial_state) as Hsteps.
  pose proof (find_seed_bound within n (x, y) (records shp) 0 initial_state
                (Z.le_refl 0) (Z.le_refl _)) as Hb.
  destruct (find_seed within n (x, y) 0 (records shp) initial_state) as [st o].
  cbn [fst snd] in *. change (current_progress initial_state) with 0 in *.
  assert (Hst : current_progress st <= 50) by (apply Hb; lia). clear Hb.
  destruct o as [sr|].
  - destruct (read_seed (fields shp) reach_field basin_field area_field sr) as [sd|e].
    + pose proof (aggregate_counted n sd (records shp) 0 initial_acc st Hcount) as [H0 Hr].
      pose proof (aggregate_steps n sd (records shp) 0 initial_acc st) as Hs.
      pose proof (aggregate_bound n sd (records shp) 0 initial_acc st
                    (Z.le_refl 0) (Z.le_refl _) ltac:(lia)) as Hb'.
      destruct (aggregate n sd 0 (records shp) initial_acc st) as [st' r].
      cbn [fst snd] in *. fold n in Hs. repeat split; try assumption. lia.
    + cbn [fst snd]. destruct Hcount as [H0 Hr]. repeat split; try assumption; lia.
  - cbn [fst snd progress_callback current_progress reported].
    destruct Hcount as [H0 Hr]. repeat split; try assumption. now rewrite Hr.
Qed.

(** X7: every value passed to the progress callback is an integer from 1
    to 100, on every input and also when the call raises. *)
Theorem reports_in_range (shp : reader) (reach_field basin_field : string)
    (x y : float) (area_field : option string) (return_reach : bool) :
  Forall (fun v => 1 <= v <= 100)
    (reported (fst (find_basin_adaptado within shp reach_field basin_field x y
                      area_field return_reach))).
Proof.
  destruct (reports_of_call shp reach_field basin_field x y area_field return_reach)
    as [H0 H].
  destruct (find (contains within (x, y)) (records shp)).
  - destruct H as (-> & H100 & _).
    eapply Forall_impl; [|apply upto_range]. simpl; intros; lia.
  - destruct H as (-> & H50). apply Forall_app. split.
    + eapply Forall_impl; [|apply upto_range]. simpl; intros; lia.
    + repeat constructor; lia.
Qed.

(** X8: the values reported are consecutive: the callback receives
    1, 2, ..., m with no gap, where m is the final [current_progress];
    when no record contains the point, m is at most 50 and one last call
    with 100 follows. *)
Theorem reports_are_consecutive (shp : reader) (reach_field basin_field : string)
    (x y : float) (area_field : option string) (return_reach : bool) :
  let st := fst (find_basin_adaptado within shp reach_field basin_field x y
                   area_field return_reach) in
  match find (contains within (x, y)) (records shp) with
  | Some _ => reported st = upto (current_progress st)
  | None =>
      reported st = upto (current_progress st) ++ [100]
      /\ current_progress st <= 50
  end.
Proof.
  intros st.
  destruct (reports_of_call shp reach_field basin_field x y area_field return_reach)
    as [_ H]. fold st in H.
  destruct (find (contains within (x, y)) (records shp)); tauto.
Qed.

(** X9: when a record contains the point, the callback is called at most
    once for each record passed over in either loop: on a layer of [n]
    records no reported value exceeds [2 n - 1], so with at most 50 records
    the value 100 is never reported. *)
Theorem found_reports_bounded_by_records (shp : reader) (reach_field basin_field : string)
    (x y : float) (area_field : option string) (return_reach : bool)
    (sr : shape_record) :
  find (contains within (x, y)) (records shp) = Some sr ->
  let reports := reported (fst (find_basin_adaptado within shp reach_field basin_field
                                  x y area_field return_reach)) in
  let n := Z.of_nat (List.length (records shp)) in
  Forall (fun v => v <= 2 * n - 1) reports
  /\ (n <= 50 -> ~ In 100 reports).
Proof.
  intros Hfind reports n.
  destruct (reports_of_call shp reach_field basin_field x y area_field return_reach)
    as [H0 H]. rewrite Hfind in H. destruct H as (Hr & _ & Hn).
  assert (Hall : Forall (fun v => v <= 2 * n - 1) reports).
  { unfold reports. rewrite Hr.
    eapply Forall_impl; [|apply upto_range].
    intros v Hv. cbv beta in Hv. unfold n. lia. }
  split; [exact Hall|].
  intros H50 Hin. rewrite Forall_forall in Hall. apply Hall in Hin. lia.
Qed.

End ProgressFacts.

Section BasinFacts.

Context {B : Builtins}.
Variable within : coords -> polygon -> bool.

(** ** What the second loop gathers *)

Lemma prefix_same (s : string) : prefix s s = true.
Proof.
  induction s as [|c s IH]; simpl; [reflexivity|].
  destruct (ascii_dec c c); [assumption|congruence].
Qed.

Lemma add_area_parsed (k : nat) (sr : shape_record) (a x : float) :
  parsed_area k sr = Some a ->
  add_area k (sr_record sr) x = Return (float_add x a).
Proof.
  unfold parsed_area. intros H.
  destruct (nth_error (sr_record sr) k) as [[s|v|]|] eqn:E; try discriminate.
  - rewrite (add_area_str _ _ _ x E). unfold float_str. now rewrite H.
  - injection H as <-. apply (add_area_num _ _ _ x E).
Qed.

Lemma add_parts_polygons (sd : seed) (sr : shape_record) (polys : list polygon) :
  forall acc acc',
  add_parts sd sr polys acc = Return acc' ->
  basin_polygons acc' = basin_polygons acc ++ polys.
Proof.
  induction polys as [|poly rest IH]; simpl; intros acc acc' H.
  - injection H as <-. now rewrite app_nil_r.
  - destruct (match area_index sd with
              | Some k => add_area k (sr_record sr) (area acc)
              | None => Return (area acc)
              end) as [a|e]; simpl in H; [|discriminate].
    apply IH in H. rewrite H. simpl. now rewrite <- app_assoc.
Qed.

Lemma add_parts_without_index (sd : seed) (sr : shape_record) (polys : list polygon) :
  area_index sd = None ->
  forall acc,
  add_parts sd sr polys acc
  = Return {| basin_polygons := basin_polygons acc ++ polys; area := area acc |}.
Proof.
  intros Hai. induction polys as [|poly rest IH]; simpl; intros acc.
  - rewrite app_nil_r. now destruct acc.
  - rewrite Hai. simpl. rewrite IH. simpl. now rewrite <- app_assoc.
Qed.

Lemma visit_matched (sd : seed) (sr : shape_record) (acc : basin_acc) (b : bool) :
  matches sd sr = Return b ->
  visit sd sr acc
  = if matched sd sr then add_parts sd sr (record_polygons sr) acc else Return acc.
Proof.
  intros H. unfold visit, matched. rewrite H. now destruct b.
Qed.

(** When the second loop returns, the matcher returned on every record and
    the polygons gathered are the parts of the matched records, in order. *)
Lemma aggregate_returns (fc : Z) (sd : seed) (rs : list shape_record) :
  forall i acc st acc',
  snd (aggregate fc sd i rs acc st) = Return acc' ->
  (forall r, In r rs -> exists b, matches sd r = Return b)
  /\ basin_polygons acc'
     = basin_polygons acc ++ flat_map record_polygons (filter (matched sd) rs).
Proof.
  induction rs as [|sr rs IH]; cbn [aggregate]; intros i acc st acc' H.
  - simpl in H. injection H as <-. split; [intros r []|]. simpl. now rewrite app_nil_r.
  - destruct (visit sd sr acc) as [acc1|e] eqn:Ev; [|discriminate].
    apply IH in H. destruct H as [Hall Hpolys].
    assert (Hm : exists b, matches sd sr = Return b).
    { unfold visit in Ev. destruct (matches sd sr) as [b|]; [now exists b|discriminate]. }
    split.
    + intros r [<-|Hin]; auto.
    + destruct Hm as [b Hm]. rewrite (visit_matched sd sr acc b Hm) in Ev.
      rewrite Hpolys. cbn [filter].
      destruct (matched sd sr).
      * apply add_parts_polygons in Ev. rewrite Ev. cbn [flat_map].
        now rewrite <- app_assoc.
      * injection Ev as <-. reflexivity.
Qed.

Lemma aggregate_without_area (fc : Z) (sd : seed) (rs : list shape_record) :
  area_index sd = None ->
  (forall r, In r rs -> exists b, matches sd r = Return b) ->
  forall i acc st,
  snd (aggregate fc sd i rs acc st)
  = Return {| basin_polygons :=
                basin_polygons acc ++ flat_map record_polygons (filter (matched sd) rs);
              area := area acc |}.
Proof.
  intros Hai. induction rs as [|sr rs IH]; cbn [aggregate]; intros Hall i acc st.
  - simpl. rewrite app_nil_r. now destruct acc.
  - destruct (Hall sr (or_introl eq_refl)) as [b Hm].
    rewrite (visit_matched sd sr acc b Hm). cbn [filter].
    destruct (matched sd sr).
    + rewrite (add_parts_without_index sd sr _ Hai). cbv zeta.
      rewrite IH by (intros; apply Hall; now right).
      cbn [basin_polygons area flat_map]. now rewrite <- app_assoc.
    + cbv zeta. apply IH. intros; apply Hall; now right.
Qed.

Lemma aggregate_with_area (fc : Z) (sd : seed) (k : nat) (rs : list shape_record) :
  area_index sd = Some k ->
  forall areas,
  (forall r, In r rs -> exists b, matches sd r = Return b) ->
  Forall2 (fun r a => parsed_area k r = Some a /\ exists p, record_polygons r = [p])
    (filter (matched sd) rs) areas ->
  forall i acc st,
  snd (aggregate fc sd i rs acc st)
  = Return {| basin_polygons :=
                basin_polygons acc ++ flat_map record_polygons (filter (matched sd) rs);
              area := fold_left float_add areas (area acc) |}.
Proof.
  intros Hk. induction rs as [|sr rs IH]; cbn [aggregate filter];
    intros areas Hall Hareas i acc st.
  - inversion Hareas; subst. simpl. rewrite app_nil_r. now destruct acc.
  - destruct (Hall sr (or_introl eq_refl)) as [b Hm].
    rewrite (visit_matched sd sr acc b Hm).
    destruct (matched sd sr).
    + inversion Hareas as [|r a rs' areas' [Ha [p Hp]] Hrest]; subst.
      rewrite Hp. cbn [add_parts]. rewrite Hk, (add_area_parsed k sr a _ Ha).
      cbn [bind]. cbv zeta.
      rewrite (IH areas') by (auto; intros; apply Hall; now right).
      cbn [basin_polygons area flat_map fold_left]. rewrite Hp.
      now rewrite <- app_assoc.
    + cbv zeta. apply IH; auto. intros; apply Hall; now right.
Qed.

(** From a record that contains the point on, the call is [read_seed] on the
    first such record and then the second loop. *)
Lemma call_of_seed (shp : reader) (reach_field basin_field : string)
    (x y : float) (area_field : option string) (return_reach : bool)
    (sr : shape_record) (sd : seed) :
  find (contains within (x, y)) (records shp) = Some sr ->
  read_seed (fields shp) reach_field basin_field area_field sr = Return sd ->
  exists st,
    snd (find_basin_adaptado within shp reach_field basin_field x y area_field
           return_reach)
    = (acc <- snd (aggregate (Z.of_nat (List.length (records shp))) sd 0
                     (records shp) initial_acc st) ;;
       Return (pack area_field return_reach sd acc)).
Proof.
  intros Hfind Hsd.
  destruct (find_basin_adaptado_found within shp reach_field basin_field x y
              area_field return_reach sr Hfind) as [st ->].
  rewrite Hsd. exists st.
  now destruct (aggregate _ sd 0 (records shp) initial_acc st).
Qed.

(** X10: with no area field, when the first record that contains the point
    gives the seed and the matcher returns on every record, the call returns
    the basin made of all the parts of exactly the matched records, in the
    order of the records, whatever [return_reach] is. *)
Theorem basin_is_parts_of_matched (shp : reader) (reach_field basin_field : string)
    (x y : float) (return_reach : bool) (sr : shape_record) (sd : seed) :
  find (contains within (x, y)) (records shp) = Some sr ->
  read_seed (fields shp) reach_field basin_field None sr = Return sd ->
  (forall r, In r (records shp) -> exists b, matches sd r = Return b) ->
  snd (find_basin_adaptado within shp reach_field basin_field x y None return_reach)
  = Return (RBasin (flat_map record_polygons (filter (matched sd) (records shp)))).
Proof.
  intros Hfind Hsd Hall.
  destruct (call_of_seed shp reach_field basin_field x y None return_reach sr sd
              Hfind Hsd) as [st ->].
  destruct (read_seed_fields _ _ _ _ _ _ Hsd) as (_ & _ & _ & _ & Hai).
  rewrite (aggregate_without_area _ sd (records shp) Hai Hall).
  reflexivity.
Qed.

(** X11: with an area field, when every matched record has exactly one part
    and an area that is a number or a string [float] reads after its commas
    are replaced, the call returns the parts of the matched records together
    with the sum of their areas, added in the order of the records starting
    from 0.0, and, when [return_reach] is set, with the reach attribute of
    the seed record as third component. *)
Theorem area_is_sum_over_matched (shp : reader) (reach_field basin_field name : string)
    (x y : float) (return_reach : bool) (sr : shape_record) (sd : seed)
    (k : nat) (areas : list float) :
  find (contains within (x, y)) (records shp) = Some sr ->
  read_seed (fields shp) reach_field basin_field (Some name) sr = Return sd ->
  index (fields shp) name = Some k ->
  (forall r, In r (records shp) -> exists b, matches sd r = Return b) ->
  Forall2 (fun r a => parsed_area k r = Some a /\ exists p, record_polygons r = [p])
    (filter (matched sd) (records shp)) areas ->
  let basin := flat_map record_polygons (filter (matched sd) (records shp)) in
  let total := fold_left float_add areas float_zero in
  attribute (fields shp) reach_field sr = Return (selected_reach sd)
  /\ snd (find_basin_adaptado within shp reach_field basin_field x y (Some name)
            return_reach)
     = Return (if return_reach
               then RBasinAreaReach basin total (selected_reach sd)
               else RBasinArea basin total).
Proof.
  intros Hfind Hsd Hname Hall Hareas basin total.
  destruct (read_seed_fields _ _ _ _ _ _ Hsd) as (Hri & _ & HR & _ & k' & Hk & Hk').
  rewrite Hname in Hk'. injection Hk' as <-.
  split.
  - unfold attribute, field_index. now rewrite Hri.
  - destruct (call_of_seed shp reach_field basin_field x y (Some name) return_reach
                sr sd Hfind Hsd) as [st ->].
    rewrite (aggregate_with_area _ sd k (records shp) Hk areas Hall Hareas).
    now destruct return_reach.
Qed.

End BasinFacts.

Section SeedFacts.

Context {B : Builtins}.
Variable within : coords -> polygon -> bool.

(** ** The seed among the records *)

(** On the record it was read from, the matcher answers true, or raises
    [AttributeError] when the reach attribute is not a string. *)
Lemma matches_seed_record (fs : list string) (reach_field basin_field : string)
    (area_field : option string) (sr : shape_record) (sd : seed) :
  read_seed fs reach_field basin_field area_field sr = Return sd ->
  match selected_reach sd with
  | VStr _ => matches sd sr = Return true
  | VNum _ | VNone => matches sd sr = Raise AttributeError
  end.
Proof.
  intros Hsd.
  destruct (read_seed_fields _ _ _ _ _ _ Hsd)
    as (_ & _ & HR & (code & Hcode & Hint & Hlen) & _).
  unfold matches. rewrite HR. cbn [bind].
  destruct (selected_reach sd) as [R| |]; cbn [startswith_value bind];
    try reflexivity.
  unfold startswith. rewrite prefix_same, Hcode. cbn [bind].
  destruct code as [b| |]; try discriminate.
  cbn [len_value int_value] in Hlen, Hint. injection Hlen as <-.
  cbn [normalize_value bind]. rewrite normalize_same, Hint. cbn [bind].
  now rewrite Z.leb_refl.
Qed.

(** X12: the matcher is reflexive on the seed: when the seed data were read
    from a record whose reach attribute is a string, that record matches. *)
Theorem seed_matches_itself (fs : list string) (reach_field basin_field : string)
    (area_field : option string) (sr : shape_record) (sd : seed) (R : string) :
  read_seed fs reach_field basin_field area_field sr = Return sd ->
  attribute fs reach_field sr = Return (VStr R) ->
  matches sd sr = Return true.
Proof.
  intros Hsd HR.
  pose proof (matches_seed_record fs reach_field basin_field area_field sr sd Hsd) as H.
  destruct (read_seed_fields _ _ _ _ _ _ Hsd) as (Hri & _ & Hsel & _).
  unfold attribute, field_index in HR. rewrite Hri in HR. cbn [bind] in HR.
  rewrite Hsel in HR. injection HR as HR. now rewrite HR in H.
Qed.

(** X13: a basin that the call returns contains every polygon of the record
    that contains the point. *)
Theorem returned_basin_contains_seed (shp : reader) (reach_field basin_field : string)
    (x y : float) (area_field : option string) (return_reach : bool)
    (sr : shape_record) (r : result) :
  find (contains within (x, y)) (records shp) = Some sr ->
  snd (find_basin_adaptado within shp reach_field basin_field x y area_field
         return_reach) = Return r ->
  exists basin,
    basin_of r = Some basin
    /\ forall poly, In poly (record_polygons sr) -> In poly basin.
Proof.
  intros Hfind Hret.
  destruct (find_basin_adaptado_found within shp reach_field basin_field x y
              area_field return_reach sr Hfind) as [st Hcall].
  rewrite Hcall in Hret.
  destruct (read_seed (fields shp) reach_field basin_field area_field sr)
    as [sd|e] eqn:Hsd; [|discriminate].
  destruct (aggregate (Z.of_nat (List.length (records shp))) sd 0 (records shp)
              initial_acc st) as [st' [acc|e]] eqn:Hagg; [|discriminate].
  cbn [snd bind] in Hret. injection Hret as <-.
  pose proof (aggregate_returns _ sd (records shp) 0 initial_acc st acc
                ltac:(now rewrite Hagg)) as [Hall Hpolys].
  cbn [initial_acc basin_polygons app] in Hpolys.
  apply find_some in Hfind. destruct Hfind as [Hin _].
  assert (Hm : matched sd sr = true).
  { destruct (Hall sr Hin) as [b Hb].
    pose proof (matches_seed_record _ _ _ _ sr sd Hsd) as Hself.
    unfold matched. destruct (selected_reach sd); rewrite Hself in *;
      [reflexivity|discriminate|discriminate]. }
  exists (basin_polygons acc). split.
  - unfold pack. destruct area_field, return_reach; reflexivity.
  - intros poly Hpoly. rewrite Hpolys. apply in_flat_map.
    exists sr. split; [|exact Hpoly]. apply filter_In. now split.
Qed.

(** ** Field names that the layer does not have *)

(** X14: when a record contains the point and the reach field, the basin
    field or the area field named is not a field of the layer, the call
    raises [ValueError] right after the first loop: every value reported is
    at most 50. *)
Theorem missing_field_raises (shp : reader) (reach_field basin_field : string)
    (x y : float) (area_field : option string) (return_reach : bool)
    (sr : shape_record) :
  find (contains within (x, y)) (records shp) = Some sr ->
  index (fields shp) reach_field = None
  \/ index (fields shp) basin_field = None
  \/ (exists name, area_field = Some name /\ index (fields shp) name = None) ->
  snd (find_basin_adaptado within shp reach_field basin_field x y area_field
         return_reach) = Raise ValueError
  /\ Forall (fun v => v <= 50)
       (reported (fst (find_basin_adaptado within shp reach_field basin_field x y
                         area_field return_reach))).
Proof.
  intros Hfind Hmissing.
  assert (Hsd : read_seed (fields shp) reach_field basin_field area_field sr
                = Raise ValueError).
  { unfold read_seed, field_index.
    destruct (index (fields shp) reach_field) as [ri|]; [|reflexivity].
    destruct (index (fields shp) basin_field) as [bi|]; [|reflexivity].
    destruct Hmissing as [H|[H|(name & -> & H)]]; try discriminate.
    cbn [bind]. now rewrite H. }
  unfold find_basin_adaptado.
  rewrite <- (find_seed_find within (Z.of_nat (List.length (records shp))) (x, y)
                (records shp) 0 initial_state) in Hfind.
  destruct (first_pass_state within shp (x, y)) as [[_ Hb] Hc].
  destruct (find_seed within _ (x, y) 0 (records shp) initial_state) as [st o].
  cbn [fst snd] in *. subst o. rewrite Hsd. cbn [fst snd].
  split; [reflexivity|].
  eapply Forall_impl; [|exact Hb]. cbv beta. intros; lia.
Qed.

(** ** Points in the same record *)

Lemma find_seed_passes (fc : Z) (p q : coords) (pre : list shape_record) :
  (forall r, In r pre -> contains within p r = false) ->
  (forall r, In r pre -> contains within q r = false) ->
  forall i st, find_seed within fc p i pre st = find_seed within fc q i pre st.
Proof.
  unfold contains.
  induction pre as [|r pre IH]; cbn [find_seed]; intros Hp Hq i st; [reflexivity|].
  rewrite (Hp r (or_introl eq_refl)), (Hq r (or_introl eq_refl)).
  apply IH; intros; [apply Hp|apply Hq]; now right.
Qed.

(** X15: two points whose first containing record is the same record, at
    the same place in the layer, give the same call: the same reports and
    the same outcome. *)
Theorem same_seed_same_call (shp : reader) (reach_field basin_field : string)
    (x1 y1 x2 y2 : float) (area_field : option string) (return_reach : bool)
    (pre : list shape_record) (sr : shape_record) (post : list shape_record) :
  records shp = pre ++ sr :: post ->
  (forall r, In r pre -> contains within (x1, y1) r = false) ->
  (forall r, In r pre -> contains within (x2, y2) r = false) ->
  contains within (x1, y1) sr = true ->
  contains within (x2, y2) sr = true ->
  find_basin_adaptado within shp reach_field basin_field x1 y1 area_field return_reach
  = find_basin_adaptado within shp reach_field basin_field x2 y2 area_field return_reach.
Proof.
  intros Hrs Hp Hq Hsp Hsq. unfold find_basin_adaptado. rewrite Hrs.
  rewrite !find_seed_stops by assumption.
  now rewrite (find_seed_passes _ (x1, y1) (x2, y2) pre Hp Hq).
Qed.

(** ** The length of the returned tuple *)

(** X16: with an area field and [return_reach] set, a call that returns
    gives a tuple of three values when a record contains the point and the
    pair [None, None] when none does. *)
Theorem returned_tuple_length (shp : reader) (reach_field basin_field name : string)
    (x y : float) (r : result) :
  snd (find_basin_adaptado within shp reach_field basin_field x y (Some name) true)
  = Return r ->
  match find (contains within (x, y)) (records shp) with
  | Some _ => tuple_length r = Some 3%nat /\ basin_of r <> None
  | None => r = RNonePair
  end.
Proof.
  unfold find_basin_adaptado.
  rewrite <- (find_seed_find within (Z.of_nat (List.length (records shp))) (x, y)
                (records shp) 0 initial_state).
  destruct (find_seed within _ (x, y) 0 (records shp) initial_state) as [st [sr|]];
    cbn [fst snd].
  - destruct (read_seed (fields shp) reach_field basin_field (Some name) sr) as [sd|e];
      [|discriminate].
    destruct (aggregate _ sd 0 (records shp) initial_acc st) as [st' [acc|e]];
      cbn [snd bind]; [|discriminate].
    intros [= <-]. split; [reflexivity|discriminate].
  - now intros [= <-].
Qed.

End SeedFacts.

Section SaveFacts.

Context {B : Builtins}.
Variable geometry : Type.
Variable exterior_coords : geometry -> outcome (list coords).

(** ** Saving polygons *)

Lemma record_ids_app (l1 l2 : list writer_call) :
  record_ids (l1 ++ l2) = record_ids l1 ++ record_ids l2.
Proof. apply flat_map_app. Qed.

Lemma shapes_app (l1 l2 : list writer_call) :
  shapes (l1 ++ l2) = shapes l1 ++ shapes l2.
Proof. apply flat_map_app. Qed.

Lemma save_loop_all (polygons : list geometry) :
  forall rings i written,
  Forall2 (fun poly ring => exterior_coords poly = Return ring) polygons rings ->
  snd (save_loop exterior_coords i polygons written) = Return tt
  /\ record_ids (fst (save_loop exterior_coords i polygons written))
     = record_ids written
       ++ map (fun j => i + Z.of_nat j) (seq 0 (List.length polygons))
  /\ shapes (fst (save_loop exterior_coords i polygons written))
     = shapes written ++ map (fun ring => [ring]) rings.
Proof.
  induction polygons as [|poly rest IH]; intros rings i written Hall;
    inversion Hall as [|? ring ? rings' Hring Hrest]; subst; cbn [save_loop].
  - cbn [fst snd List.length seq map]. now rewrite !app_nil_r.
  - rewrite Hring.
    destruct (IH rings' (i + 1) ((written ++ [WRecord i]) ++ [WPoly [ring]]) Hrest)
      as (Hret & Hids & Hshapes).
    split; [exact Hret|split].
    + rewrite Hids, !record_ids_app. cbn [record_ids flat_map app List.length seq map].
      rewrite app_nil_r, <- app_assoc. cbn [app]. do 2 f_equal; [lia|].
      rewrite <- seq_shift, map_map. apply map_ext. intros j. lia.
    + rewrite Hshapes, !shapes_app. cbn [shapes flat_map app map].
      now rewrite app_nil_r, <- app_assoc.
Qed.


Lemma save_loop_stops (done : list geometry) (bad : geometry) (rest : list geometry)
    (e : exn) :
  exterior_coords bad = Raise e ->
  forall rings i written,
  Forall2 (fun poly ring => exterior_coords poly = Return ring) done rings ->
  snd (save_loop exterior_coords i (done ++ bad :: rest) written) = Raise e
  /\ List.length (record_ids (fst (save_loop exterior_coords i (done ++ bad :: rest)
                                     written)))
     = (List.length (record_ids written) + List.length done + 1)%nat
  /\ List.length (shapes (fst (save_loop exterior_coords i (done ++ bad :: rest)
                                 written)))
     = (List.length (shapes written) + List.length done)%nat.
Proof.
  intros Hbad. induction done as [|poly done IH]; intros rings i written Hall;
    inversion Hall as [|? ring ? rings' Hring Hrest]; subst;
    cbn [app save_loop].
  - rewrite Hbad. cbn [fst snd].
    rewrite record_ids_app, shapes_app, !length_app. cbn. repeat split; lia.
  - rewrite Hring.
    destruct (IH rings' (i + 1) ((written ++ [WRecord i]) ++ [WPoly [ring]]) Hrest)
      as (Hret & Hids & Hshapes).
    rewrite Hret, Hids, Hshapes, !record_ids_app, !shapes_app, !length_app.
    cbn. repeat split; lia.
Qed.


End SaveFacts.

(** * The further properties on the layers *)

Module MoreScenarios.

Import Run RunMore.


Lemma polygon_is_run_of_points_witness :
  exists before after,
    points (two_rects 0 1 2 3 0 1) = before ++ ring 2 0 3 1 ++ after.
Proof.
  apply (polygon_is_run_of_points (B:=rationals) (two_rects 0 1 2 3 0 1)).
  right; left; reflexivity.
Defined.


Lemma found_reports_bounded_by_records_witness :
  Forall (fun v => v <= 5)
    (reported (fst (find_basin layer "cocursodag" "cobacia" (3 # 2) half None false)))
  /\ (3 <= 50 ->
      ~ In 100 (reported (fst (find_basin layer "cocursodag" "cobacia" (3 # 2) half
                                 None false)))).
Proof.
  exact (found_reports_bounded_by_records (B:=rationals) within_rect layer
           "cocursodag" "cobacia" (3 # 2) half None false R2 eq_refl).
Defined.

Lemma basin_is_parts_of_matched_witness :
  snd (find_basin layer "cocursodag" "cobacia" half half None false)
  = Return (RBasin [ring 0 0 1 1; ring 1 0 2 1]).
Proof.
  apply (basin_is_parts_of_matched (B:=rationals) within_rect layer
           "cocursodag" "cobacia" half half false R1
           {| reach_index := 0; basin_index := 1; area_index := None;
              selected_reach := VStr "10"; selected_basin_int := 100;
              selected_basin_length := 3 |}).
  - reflexivity.
  - reflexivity.
  - intros r [<-|[<-|[<-|[]]]]; eexists; reflexivity.
Defined.

Lemma area_is_sum_over_matched_witness :
  attribute layer_fields "cocursodag" R1 = Return (VStr "10")
  /\ snd (find_basin layer "cocursodag" "cobacia" half half (Some "nuareacont") true)
     = Return (RBasinAreaReach [ring 0 0 1 1; ring 1 0 2 1] (15 # 1) (VStr "10")).
Proof.
  apply (area_is_sum_over_matched (B:=rationals) within_rect layer
           "cocursodag" "cobacia" "nuareacont" half half true R1 seed_R1 2
           [10 # 1; 5 # 1]).
  - reflexivity.
  - reflexivity.
  - reflexivity.
  - intros r [<-|[<-|[<-|[]]]]; eexists; reflexivity.
  - change (filter (matched seed_R1) (records layer)) with [R1; R2].
    repeat constructor; eexists; reflexivity.
Defined.

Lemma seed_matches_itself_witness : matches seed_R1 R1 = Return true.
Proof.
  apply (seed_matches_itself (B:=rationals) layer_fields "cocursodag" "cobacia"
           (Some "nuareacont") R1 seed_R1 "10"); reflexivity.
Defined.

Lemma returned_basin_contains_seed_witness :
  exists basin,
    basin_of (RBasin [ring 0 0 1 1; ring 1 0 2 1]) = Some basin
    /\ forall poly, In poly (record_polygons R1) -> In poly basin.
Proof.
  apply (returned_basin_contains_seed (B:=rationals) within_rect layer
           "cocursodag" "cobacia" half half None false R1); reflexivity.
Defined.

Lemma missing_field_raises_witness :
  snd (find_basin layer "cocursodag" "cobacia" half half (Some "area") false)
  = Raise ValueError
  /\ Forall (fun v => v <= 50)
       (reported (fst (find_basin layer "cocursodag" "cobacia" half half
                         (Some "area") false))).
Proof.
  apply (missing_field_raises (B:=rationals) within_rect layer
           "cocursodag" "cobacia" half half (Some "area") false R1).
  - reflexivity.
  - right; right. exists "area". split; reflexivity.
Defined.

Lemma same_seed_same_call_witness :
  find_basin layer "cocursodag" "cobacia" (3 # 2) half (Some "nuareacont") true
  = find_basin layer "cocursodag" "cobacia" (5 # 4) (3 # 4) (Some "nuareacont") true.
Proof.
  apply (same_seed_same_call (B:=rationals) within_rect layer
           "cocursodag" "cobacia" (3 # 2) half (5 # 4) (3 # 4)
           (Some "nuareacont") true [R1] R2 [R3]);
    try reflexivity; intros r [<-|[]]; reflexivity.
Defined.

Lemma returned_tuple_length_witness :
  tuple_length (RBasinAreaReach [ring 0 0 1 1; ring 1 0 2 1] (15 # 1) (VStr "10"))
  = Some 3%nat
  /\ basin_of (RBasinAreaReach [ring 0 0 1 1; ring 1 0 2 1] (15 # 1) (VStr "10"))
     <> None.
Proof.
  exact (returned_tuple_length (B:=rationals) within_rect layer
           "cocursodag" "cobacia" "nuareacont" half half
           (RBasinAreaReach [ring 0 0 1 1; ring 1 0 2 1] (15 # 1) (VStr "10"))
           eq_refl).
Defined.



End MoreScenarios.
